(** * ai-music-arranger: the music-theory data model, parsing, validation and
      encoding pipeline, embedded from [src/utils.py], [src/models.py] and
      [src/services.py].

    Conventions of the embedding.
    - A Python [str] is a [string]; each character stands for the code point
      of the same number, so the development covers code points below 256
      (on these, [\d] is [0-9], and [str.lower], [str.upper] and
      [str.strip] are the Latin-1 fragments written out below).
    - A Python [int] is a [Z]; [int] of a text and [str] of an [int] raise
      beyond CPython's limit of 4300 digits.  A Python [float] is an IEEE
      binary64 value and a [numpy.float32] an IEEE binary32 value, both as
      [spec_float].
    - A function that can raise returns a [result]; a function that logs or
      whose calls are observed runs in the monad [M], which threads the
      list of events produced so far.
    - Behaviour of the libraries that the repository calls but does not
      contain (pydantic's renderings and string-to-float coercion, the
      loaded prediction model) is a [Variable] of the section that uses it. *)

From Stdlib Require Import ZArith NArith String Ascii List Lia.
From Stdlib Require Import Decimal DecimalString DecimalFacts DecimalN DecimalZ.
From Stdlib Require Import SpecFloat.
From stdpp Require Import base tactics option list gmap strings.

Set Warnings "-register-all".
#[local] Open Scope Z_scope.
#[local] Open Scope string_scope.
#[local] Open Scope list_scope.

(** * The Python runtime the three files rely on *)

Module Py.

(** ** Exceptions and results *)

Inductive exn_class := ValueError | TypeError | OverflowError | ValidationError.

(** An exception is its class and its [str(e)]. *)
Record exn := Exn { exn_cls : exn_class; exn_str : string }.

Inductive result (A : Type) :=
| OK (a : A)
| Raise (e : exn).
Arguments OK {A} a.
Arguments Raise {A} e.

#[global] Instance result_ret : MRet result := fun _ a => OK a.
#[global] Instance result_bind : MBind result := fun _ _ f r =>
  match r with
  | OK a => f a
  | Raise e => Raise e
  end.
#[global] Instance result_fmap : FMap result := fun _ _ f r =>
  match r with
  | OK a => OK (f a)
  | Raise e => Raise e
  end.

Definition is_ok {A} (r : result A) : bool :=
  match r with OK _ => true | Raise _ => false end.

(** [[f(x) for x in l]]: the first exception ends the comprehension. *)
Fixpoint comprehension {A B} (f : A -> result B) (l : list A) : result (list B) :=
  match l with
  | [] => OK []
  | x :: l' =>
      y ← f x;
      r ← comprehension f l';
      mret (y :: r)
  end.

(** ** Events: log records, and the entries of observed calls *)

Inductive level := INFO | ERROR.

Inductive event :=
| Log (lvl : level) (text : string)
| Enter (fn : string).

Definition trace := list event.

(** ** The monad of the logging code *)

Definition M (A : Type) : Type := trace -> result A * trace.

#[global] Instance M_ret : MRet M := fun _ a t => (OK a, t).
#[global] Instance M_bind : MBind M := fun _ _ f m t =>
  match m t with
  | (OK a, t') => f a t'
  | (Raise e, t') => (Raise e, t')
  end.

Definition lift {A} (r : result A) : M A := fun t => (r, t).
Definition raise {A} (e : exn) : M A := fun t => (Raise e, t).
Definition emit (ev : event) : M unit := fun t => (OK tt, t ++ [ev]).
Definition logging_info (text : string) : M unit := emit (Log INFO text).
Definition logging_error (text : string) : M unit := emit (Log ERROR text).

(** A comprehension whose element expression runs in [M]. *)
Fixpoint comprehensionM {A B} (f : A -> M B) (l : list A) : M (list B) :=
  match l with
  | [] => mret []
  | x :: l' =>
      y ← f x;
      r ← comprehensionM f l';
      mret (y :: r)
  end.

(** The entry of a call is recorded before the call runs.  These records
    are not program state: they make "this function was not invoked"
    a statement about the trace. *)
Definition observed {A} (fn : string) (call : M A) : M A :=
  emit (Enter fn);; call.

(** [try: body except Exception as e: handler e] *)
Definition try_except {A} (body : M A) (handler : exn -> M A) : M A := fun t =>
  match body t with
  | (OK a, t') => (OK a, t')
  | (Raise e, t') => handler e t'
  end.

(** ** Characters and strings *)

Definition code (c : ascii) : N := N_of_ascii c.
Definition in_range (lo hi : N) (c : ascii) : bool :=
  (lo <=? code c)%N && (code c <=? hi)%N.

(** [\d] on a code point below 256: of these, the decimal digits are 0 to
    9.  The digits of other scripts, which [\d] and [int] accept as well,
    lie above 255 and outside this development. *)
Definition is_digit (c : ascii) : bool := in_range 48 57 c.

(** [c.upper()] and [c.lower()].  The three characters below 256 whose
    upper case is not one character below 256 (code points 181, 223 and
    255) are left as they are; the repository takes the upper case of a
    letter A-G or a-g only. *)
Definition upper_char (c : ascii) : ascii :=
  if in_range 97 122 c || (in_range 224 254 c && negb (code c =? 247)%N)
  then ascii_of_N (code c - 32) else c.
Definition lower_char (c : ascii) : ascii :=
  if in_range 65 90 c || (in_range 192 222 c && negb (code c =? 215)%N)
  then ascii_of_N (code c + 32) else c.

Fixpoint str_map (f : ascii -> ascii) (s : string) : string :=
  match s with
  | EmptyString => EmptyString
  | String c r => String (f c) (str_map f r)
  end.
Definition upper : string -> string := str_map upper_char.
Definition lower : string -> string := str_map lower_char.

(** [str.isspace] on one character *)
Definition is_space (c : ascii) : bool :=
  in_range 9 13 c || in_range 28 32 c || (code c =? 133)%N || (code c =? 160)%N.

Fixpoint lstrip (s : string) : string :=
  match s with
  | String c r => if is_space c then lstrip r else s
  | EmptyString => EmptyString
  end.
Fixpoint rstrip (s : string) : string :=
  match s with
  | String c r =>
      match rstrip r with
      | EmptyString => if is_space c then EmptyString else String c EmptyString
      | r' => String c r'
      end
  | EmptyString => EmptyString
  end.
Definition strip (s : string) : string := rstrip (lstrip s).

(** [sub in s] on strings *)
Definition str_in (sub s : string) : bool :=
  match index 0 sub s with Some _ => true | None => false end.

(** [x in l] on a list of strings *)
Definition list_in (x : string) (l : list string) : bool :=
  existsb (String.eqb x) l.

(** [sep.join(l)] *)
Definition join (sep : string) (l : list string) : string := String.concat sep l.

(** [str(n)] on an [int] whose text is short (the counts and sizes that the
    messages below hold). *)
Definition str_int (n : Z) : string := NilZero.string_of_int (Z.to_int n).

(** CPython converts between [int] and decimal text only up to
    [sys.get_int_max_str_digits()] digits, 4300 unless the program changes
    it, which this repository does not. *)
Definition max_str_digits : N := 4300.

(** The two errors of the limit: of [int] on a text of [digits] digits,
    and of [str] on an [int]. *)
Definition int_limit_error (digits : nat) : exn :=
  Exn ValueError
    ("Exceeds the limit (4300 digits) for integer string conversion: value has "
     +:+ str_int (Z.of_nat digits)
     +:+ " digits; use sys.set_int_max_str_digits() to increase the limit").
Definition str_limit_error : exn :=
  Exn ValueError
    "Exceeds the limit (4300 digits) for integer string conversion; use sys.set_int_max_str_digits() to increase the limit".

(** [int(s)] on a string of decimal digits (the only strings the
    repository converts): more digits than the limit raise, leading zeros
    counted. *)
Definition int (s : string) : result Z :=
  match NilZero.uint_of_string s with
  | Some d =>
      if (max_str_digits <? N.of_nat (String.length s))%N then
        Raise (int_limit_error (String.length s))
      else OK (Z.of_uint d)
  | None => Raise (Exn ValueError ("invalid literal for int() with base 10: " +:+ s))
  end.

(** [str(n)] and [f"{n}"] on any [int]: a text of more digits than the
    limit, the sign not counted, raises. *)
Definition format_int (n : Z) : result string :=
  let text := str_int n in
  let digits := match n with
                | Z.neg _ => Nat.pred (String.length text)
                | _ => String.length text
                end in
  if (max_str_digits <? N.of_nat digits)%N then Raise str_limit_error
  else OK text.

(** ** Floating point *)

(** Rounding of an integer and of a float to binary64 and binary32. *)
Definition round64 (z : Z) : spec_float := binary_normalize 53 1024 z 0 false.
Definition to_float32 (f : spec_float) : spec_float :=
  match f with
  | S754_finite s m e => binary_normalize 24 128 (cond_Zopp s (Z.pos m)) e s
  | _ => f
  end.

(** [float(n)] on an [int]: an integer that rounds past the largest
    binary64 value raises. *)
Definition float (n : Z) : result spec_float :=
  match round64 n with
  | S754_infinity _ => Raise (Exn OverflowError "int too large to convert to float")
  | f => OK f
  end.

(** [int(x)] on a float: truncation toward zero. *)
Definition int_of_float (f : spec_float) : result Z :=
  match f with
  | S754_zero _ => OK 0
  | S754_finite s m e =>
      OK (cond_Zopp s (if (0 <=? e)%Z then Z.shiftl (Z.pos m) e else Z.shiftr (Z.pos m) (- e)))
  | S754_infinity _ => Raise (Exn OverflowError "cannot convert float infinity to integer")
  | S754_nan => Raise (Exn ValueError "cannot convert float NaN to integer")
  end.

End Py.
Import Py.

(** * [src/utils.py] *)

Module Utils.

(** [class Note(BaseModel)]: [accidental] is [Optional[str]] with default
    [None]. *)
Record Note := mkNote {
  pitch : string;
  accidental : option string;
  octave : Z
}.

(** ** [re.match(r'^([A-Ga-g])([#b]?)(\d+)$', note_str)]

    The matcher returns the three groups.  [[#b]?] and [\d+] are greedy and
    nothing after them can match what they give back, so the matcher needs
    no backtracking.  Without [re.MULTILINE], [$] matches at the end of the
    string and also just before a newline that ends the string. *)

Definition is_letter_AGag (c : ascii) : bool := in_range 65 71 c || in_range 97 103 c.
Definition is_sharp_flat (c : ascii) : bool := Ascii.eqb c "#" || Ascii.eqb c "b".
Definition newline : ascii := ascii_of_N 10.

Fixpoint span_digits (s : string) : string * string :=
  match s with
  | String c r =>
      if is_digit c then let (d, t) := span_digits r in (String c d, t)
      else (EmptyString, s)
  | EmptyString => (EmptyString, EmptyString)
  end.

Definition at_dollar (s : string) : bool :=
  match s with
  | EmptyString => true
  | String c EmptyString => Ascii.eqb c newline
  | _ => false
  end.

Definition re_match_note (s : string) : option (string * string * string) :=
  match s with
  | String c r =>
      if is_letter_AGag c then
        let (acc, r1) :=
          match r with
          | String a r' => if is_sharp_flat a then (String a EmptyString, r') else (EmptyString, r)
          | EmptyString => (EmptyString, r)
          end in
        let (digits, r2) := span_digits r1 in
        match digits with
        | EmptyString => None
        | _ => if at_dollar r2 then Some (String c EmptyString, acc, digits) else None
        end
      else None
  | EmptyString => None
  end.

(** ** [parse_note] *)

(** The body of the [try]. *)
Definition parse_note_body (note_str : string) : result Note :=
  match re_match_note note_str with
  | None => Raise (Exn ValueError ("Invalid note format: " +:+ note_str))
  | Some (g1, g2, g3) =>
      let pitch := upper g1 in
      let accidental := g2 in
      octave ← int g3;
      if negb (str_in pitch "ABCDEFG") then
        Raise (Exn ValueError ("Invalid pitch: " +:+ pitch))
      else if negb (list_in accidental [""; "#"; "b"]) then
        Raise (Exn ValueError ("Invalid accidental: " +:+ accidental))
      else OK (mkNote pitch (Some accidental) octave)
  end.

Definition parse_note (note_str : string) : M Note :=
  try_except (lift (parse_note_body note_str))
    (fun e =>
       logging_error ("Error parsing note " +:+ note_str +:+ ": " +:+ exn_str e);;
       raise e).

(** ** [format_notes] *)

(** [note.accidental or ''] *)
Definition or_empty (a : option string) : string :=
  match a with
  | Some s => s
  | None => EmptyString
  end.

(** One iteration of the loop: the string appended to [formatted]. *)
Definition format_note (note : Note) : result string :=
  let pitch := pitch note in
  let accidental := or_empty (accidental note) in
  let octave := octave note in
  let acc_str :=
    if String.eqb accidental "#" then "#"
    else if String.eqb accidental "b" then "b" else "" in
  octave_text ← format_int octave;
  OK (pitch +:+ acc_str +:+ octave_text).

(** The loop appends one string per note, in order, and stops at the first
    note whose formatting raises. *)
Definition format_notes_body (notes : list Note) : result string :=
  formatted ← comprehension format_note notes;
  OK (join " " formatted).

Definition format_notes (notes : list Note) : M string :=
  try_except (lift (format_notes_body notes))
    (fun e =>
       logging_error ("Error formatting notes: " +:+ exn_str e);;
       raise e).

(** ** [class Scale] *)

Record Scale := mkScale {
  root : string;
  scale_type : string;
  notes : list Note
}.

(** [Note(pitch=p, octave=o)]: the accidental takes its default. *)
Definition Note_pitch_octave (p : string) (o : Z) : Note := mkNote p None o.

Definition _generate_scale (root scale_type : string) : M (list Note) :=
  try_except
    (root_note ← parse_note root;
     if String.eqb (lower scale_type) "major" then
       mret [ root_note;
              Note_pitch_octave "D" (octave root_note);
              Note_pitch_octave "E" (octave root_note);
              Note_pitch_octave "F" (octave root_note);
              Note_pitch_octave "G" (octave root_note);
              Note_pitch_octave "A" (octave root_note);
              Note_pitch_octave "B" (octave root_note) ]
     else if String.eqb (lower scale_type) "minor" then
       mret [ root_note;
              Note_pitch_octave "D" (octave root_note);
              Note_pitch_octave "F" (octave root_note);
              Note_pitch_octave "G" (octave root_note);
              Note_pitch_octave "A" (octave root_note);
              Note_pitch_octave "B" (octave root_note);
              Note_pitch_octave "C" (octave root_note + 1) ]
     else raise (Exn ValueError ("Unsupported scale type: " +:+ scale_type)))
    (fun e =>
       logging_error ("Error generating scale: " +:+ exn_str e);;
       raise e).

(** [Scale.__init__] *)
Definition Scale__init__ (root scale_type : string) : M Scale :=
  notes ← _generate_scale root scale_type;
  mret (mkScale root scale_type notes).

Definition get_notes (self : Scale) : list Note := notes self.

End Utils.

(** * [src/models.py] *)

Module Models.

(** ** Loosely typed input: the values a caller can put in the [Dict] *)

Inductive pyval :=
| PNone
| PBool (b : bool)
| PInt (n : Z)
| PFloat (f : spec_float)
| PStr (s : string)
| PList (l : list pyval)
| PDict (d : gmap string pyval).

Definition type_name (v : pyval) : string :=
  match v with
  | PNone => "NoneType"
  | PBool _ => "bool"
  | PInt _ => "int"
  | PFloat _ => "float"
  | PStr _ => "str"
  | PList _ => "list"
  | PDict _ => "dict"
  end.

(** ** The validated records *)

Record MusicNote := mkMusicNote {
  pitch : string;
  duration : spec_float;
  timing : spec_float
}.

Record ChordProgression := mkChordProgression {
  notes : list MusicNote;
  key : string
}.

Record RhythmicPattern := mkRhythmicPattern {
  beats : list spec_float;
  tempo : spec_float
}.

(** The dictionary that [validate_music_data] returns has exactly the keys
    ['notes'], ['chords'] and ['rhythm']. *)
Record MusicData := mkMusicData {
  data_notes : list MusicNote;
  data_chords : list ChordProgression;
  data_rhythm : RhythmicPattern
}.

(** ** What pydantic reports: one entry per failing location *)

Inductive loc_item := Field (name : string) | Index (i : nat).

Inductive field_error :=
| Missing
| WrongType (expected : string)
| Raised (msg : string).

Definition errors := list (list loc_item * field_error).

Inductive checked (A : Type) :=
| Valid (a : A)
| Invalid (errs : errors).
Arguments Valid {A} a.
Arguments Invalid {A} errs.

Definition errs_of {A} (c : checked A) : errors :=
  match c with Valid _ => [] | Invalid errs => errs end.

Definition at_loc {A} (i : loc_item) (c : checked A) : checked A :=
  match c with
  | Valid a => Valid a
  | Invalid errs => Invalid (map (fun '(l, e) => (i :: l, e)) errs)
  end.

Definition one_error {A} (e : field_error) : checked A := Invalid [([], e)].

(** ** [re.match(r'^[A-G][#b]?[0-9]+$', value)] *)

Definition is_letter_AG (c : ascii) : bool := in_range 65 71 c.

Definition re_match_pitch (s : string) : bool :=
  match s with
  | String c r =>
      if is_letter_AG c then
        let r1 :=
          match r with
          | String a r' => if Utils.is_sharp_flat a then r' else r
          | EmptyString => r
          end in
        let (digits, r2) := Utils.span_digits r1 in
        match digits with
        | EmptyString => false
        | _ => Utils.at_dollar r2
        end
      else false
  | EmptyString => false
  end.

(** ** The validators, as written *)

Definition validate_pitch (value : pyval) : result pyval :=
  match value with
  | PStr s =>
      if negb (re_match_pitch s) then
        Raise (Exn ValueError ("Invalid pitch format: " +:+ s))
      else OK value
  | _ => Raise (Exn ValueError "Pitch must be a string")
  end.

Definition validate_key (value : pyval) : result pyval :=
  match value with
  | PStr s =>
      if String.eqb (strip s) "" then Raise (Exn ValueError "Key cannot be empty")
      else OK value
  | _ => Raise (Exn ValueError "Key must be a string")
  end.

(** [value <= 0] *)
Definition le_zero (value : pyval) : result bool :=
  match value with
  | PFloat f => OK (SFleb f (S754_zero false))
  | PInt n => OK (n <=? 0)%Z
  | PBool b => OK (negb b)
  | _ => Raise (Exn TypeError
                  ("'<=' not supported between instances of '" +:+ type_name value
                   +:+ "' and 'int'"))
  end.

Definition validate_tempo (value : pyval) : result pyval :=
  b ← le_zero value;
  if b : bool then Raise (Exn ValueError "Tempo must be a positive number")
  else OK value.

(** ** What [BaseModel] does with the three classes

    A model is built from keyword arguments.  Every declared field is
    required; each field's value is checked against the field's type, then
    passed to the field's [@validator]; keys that name no field are
    ignored.  The failures of all fields are collected, in declaration
    order, into one [ValidationError]. *)

Section Pydantic.

(** [float(s)] on a string, as pydantic's coercion of a [float] field
    applies it. *)
Variable float_of_str : string -> option spec_float.

(** [str(e)] of a pydantic [ValidationError] for a model and its
    entries. *)
Variable render : string -> errors -> string.

(** *** Field types *)

(** A [str] field takes a [str].  A value of another type is rejected
    here, before the validator runs, as the validators' own [isinstance]
    tests would reject it. *)
Definition str_type (v : pyval) : checked string :=
  match v with
  | PStr s => Valid s
  | _ => one_error (WrongType "str")
  end.

(** A [float] field takes a float, and coerces an [int], a [bool] and a
    numeric string. *)
Definition float_type (v : pyval) : checked spec_float :=
  match v with
  | PFloat f => Valid f
  | PInt n =>
      match float n with
      | OK f => Valid f
      | Raise _ => one_error (WrongType "float")
      end
  | PBool b => Valid (round64 (if b then 1 else 0))
  | PStr s =>
      match float_of_str s with
      | Some f => Valid f
      | None => one_error (WrongType "float")
      end
  | _ => one_error (WrongType "float")
  end.

(** A [List[T]] field takes a list and checks its items in order,
    collecting the entries of every failing item. *)
Fixpoint list_items {A} (item : pyval -> checked A) (i : nat) (l : list pyval)
  : checked (list A) :=
  match l with
  | [] => Valid []
  | v :: l' =>
      match at_loc (Index i) (item v), list_items item (S i) l' with
      | Valid a, Valid r => Valid (a :: r)
      | c, r => Invalid (errs_of c ++ errs_of r)
      end
  end.

Definition list_type {A} (item : pyval -> checked A) (v : pyval) : checked (list A) :=
  match v with
  | PList l => list_items item 0 l
  | _ => one_error (WrongType "list")
  end.

(** A [@validator] runs on the value its field's type accepted, and
    the field stores what the validator returns; a [ValueError] it
    raises becomes the field's entry. *)
Definition with_validator {A} (wrap : A -> pyval) (unwrap : pyval -> option A)
    (validator : pyval -> result pyval) (c : checked A) : checked A :=
  match c with
  | Invalid errs => Invalid errs
  | Valid a =>
      match validator (wrap a) with
      | Raise e => one_error (Raised (exn_str e))
      | OK v =>
          match unwrap v with
          | Some a' => Valid a'
          | None => one_error (WrongType (type_name (wrap a)))
          end
      end
  end.

Definition as_str (v : pyval) : option string :=
  match v with PStr s => Some s | _ => None end.
Definition as_float (v : pyval) : option spec_float :=
  match v with PFloat f => Some f | _ => None end.

(** A field without a default is required. *)
Definition required {A} (name : string) (check : pyval -> checked A)
    (kwargs : gmap string pyval) : checked A :=
  match kwargs !! name with
  | None => at_loc (Field name) (one_error Missing)
  | Some v => at_loc (Field name) (check v)
  end.

(** *** The three models: fields are checked in declaration order and
    every failing field is reported. *)

Definition MusicNote_fields (kwargs : gmap string pyval) : checked MusicNote :=
  match required "pitch" (fun v => with_validator PStr as_str validate_pitch (str_type v)) kwargs,
        required "duration" float_type kwargs,
        required "timing" float_type kwargs with
  | Valid p, Valid d, Valid t => Valid (mkMusicNote p d t)
  | p, d, t => Invalid (errs_of p ++ errs_of d ++ errs_of t)
  end.

(** An item of a [List[MusicNote]] field is given as a dictionary. *)
Definition MusicNote_item (v : pyval) : checked MusicNote :=
  match v with
  | PDict d => MusicNote_fields d
  | _ => one_error (WrongType "MusicNote")
  end.

Definition ChordProgression_fields (kwargs : gmap string pyval) : checked ChordProgression :=
  match required "notes" (list_type MusicNote_item) kwargs,
        required "key" (fun v => with_validator PStr as_str validate_key (str_type v)) kwargs with
  | Valid n, Valid k => Valid (mkChordProgression n k)
  | n, k => Invalid (errs_of n ++ errs_of k)
  end.

Definition RhythmicPattern_fields (kwargs : gmap string pyval) : checked RhythmicPattern :=
  match required "beats" (list_type float_type) kwargs,
        required "tempo"
          (fun v => with_validator PFloat as_float validate_tempo (float_type v)) kwargs with
  | Valid b, Valid t => Valid (mkRhythmicPattern b t)
  | b, t => Invalid (errs_of b ++ errs_of t)
  end.

(** A model called on a value unpacked as keyword arguments: the value
    must be a mapping, and a failing check raises the model's
    [ValidationError].  The [TypeError] names the class with its module,
    which is [models]: the file is imported under that name. *)
Definition construct {A} (model : string) (fields : gmap string pyval -> checked A)
    (value : pyval) : result A :=
  match value with
  | PDict kwargs =>
      match fields kwargs with
      | Valid a => OK a
      | Invalid errs => Raise (Exn ValidationError (render model errs))
      end
  | _ => Raise (Exn TypeError
                  ("models." +:+ model +:+ "() argument after ** must be a mapping, not "
                   +:+ type_name value))
  end.

Definition MusicNote_new : pyval -> result MusicNote :=
  construct "MusicNote" MusicNote_fields.
Definition ChordProgression_new : pyval -> result ChordProgression :=
  construct "ChordProgression" ChordProgression_fields.
Definition RhythmicPattern_new : pyval -> result RhythmicPattern :=
  construct "RhythmicPattern" RhythmicPattern_fields.

(** *** [validate_music_data] *)

(** [for x in value]: a list yields its items, a string its characters
    and a dictionary its keys (an empty one yields nothing; the order
    of the keys of a non-empty one is that of the map's listing). *)
Definition iterate (value : pyval) : result (list pyval) :=
  match value with
  | PList l => OK l
  | PStr s => OK (map (fun c => PStr (String c EmptyString)) (list_ascii_of_string s))
  | PDict d => OK (map (fun kv => PStr kv.1) (map_to_list d))
  | _ => Raise (Exn TypeError ("'" +:+ type_name value +:+ "' object is not iterable"))
  end.

(** [data.get(key, default)] *)
Definition get (data : gmap string pyval) (key : string) (default : pyval) : pyval :=
  match data !! key with
  | Some v => v
  | None => default
  end.

(** The body of the [try]. *)
Definition validate_music_data_body (data : gmap string pyval) : result MusicData :=
  notes ← (l ← iterate (get data "notes" (PList [])); comprehension MusicNote_new l);
  chords ← (l ← iterate (get data "chords" (PList [])); comprehension ChordProgression_new l);
  rhythm ← RhythmicPattern_new (get data "rhythm" (PDict ∅));
  mret (mkMusicData notes chords rhythm).

Definition validate_music_data (data : gmap string pyval) : M MusicData :=
  logging_info "Validating music data";;
  try_except (lift (validate_music_data_body data))
    (fun e =>
       logging_error ("Validation error: " +:+ exn_str e);;
       raise (Exn ValueError ("Invalid music data: " +:+ exn_str e))).

End Pydantic.

(** ** [notes_to_array] *)

(** The arrays that [np.array] returns in [notes_to_array]: the empty
    array of floats for [[]], and an array of strings for the three lists,
    since numpy stores the floats of a nested list that also holds strings
    as their text.  Cells are in row-major order. *)
Inductive array :=
| FloatArray (shape : list nat) (cells : list spec_float)
| StrArray (shape : list nat) (cells : list string).

(** The cells of the transpose of [r] rows and [c] columns. *)
Definition transpose_cells {A} (r c : nat) (cells : list A) : list A :=
  flat_map (fun j => flat_map (fun i => option_list (cells !! (i * c + j)%nat)) (seq 0 r))
    (seq 0 c).

(** [a.T], for the arrays of one or two dimensions that occur here. *)
Definition T (a : array) : array :=
  match a with
  | FloatArray [r; c] cells => FloatArray [c; r] (transpose_cells r c cells)
  | StrArray [r; c] cells => StrArray [c; r] (transpose_cells r c cells)
  | _ => a
  end.

Section NotesToArray.

(** The text that numpy stores for a float in an array of strings. *)
Variable str_float : spec_float -> string.

(** [np.array([pitches, durations, timings])] on three lists of one length
    that is not 0. *)
Definition np_array_columns (pitches : list string) (durations timings : list spec_float)
  : array :=
  StrArray [3%nat; length pitches]
    (pitches ++ map str_float durations ++ map str_float timings).

Definition notes_to_array (notes : list MusicNote) : M array :=
  logging_info "Converting notes to numpy array";;
  match notes with
  | [] => mret (FloatArray [0%nat] [])
  | _ =>
      let pitches := map pitch notes in
      let durations := map duration notes in
      let timings := map timing notes in
      mret (T (np_array_columns pitches durations timings))
  end.

End NotesToArray.
End Models.

(** * [src/services.py] *)

Module Services.

(** [class MusicInput(BaseModel)] *)
Record MusicInput := mkMusicInput {
  melody : list Z;
  chords : list string;
  tempo : Z
}.

(** ** The part of numpy that the service uses *)

(** An array of [float32]: its shape and its elements in row-major
    order. *)
Record ndarray := mkArray {
  shape : list nat;
  data : list spec_float
}.

Definition ndim (a : ndarray) : nat := length (shape a).

(** The [float32] element stored for a Python [int]: numpy converts the
    [int] to a C double and narrows it. *)
Definition float32 (n : Z) : result spec_float :=
  f ← float n;
  mret (to_float32 f).

(** [np.array(l, dtype=np.float32)] on a list of [int]. *)
Definition np_array (l : list Z) : result ndarray :=
  d ← comprehension float32 l;
  mret (mkArray [length l] d).

Definition shape_eqb (s1 s2 : list nat) : bool := bool_decide (s1 = s2).

(** [np.array(rows, dtype=np.float32)] on a list of arrays: an empty list
    gives the empty one-dimensional array, rows of one shape are stacked
    along a new first axis. *)
Definition np_array_of_arrays (rows : list ndarray) : result ndarray :=
  match rows with
  | [] => OK (mkArray [0%nat] [])
  | r :: _ =>
      if forallb (fun r' => shape_eqb (shape r') (shape r)) rows then
        OK (mkArray (length rows :: shape r) (concat (map data rows)))
      else
        Raise (Exn ValueError
                 "setting an array element with a sequence. The requested array has an inhomogeneous shape")
  end.

Definition str_nat (n : nat) : string := str_int (Z.of_nat n).

(** The checks of [np.concatenate] (axis 0) on the arrays after the
    first, in order: same number of dimensions, then same trailing
    dimensions.  The result is the summed first dimension. *)
Fixpoint concatenate_rest (nd : nat) (tl : list nat) (i : nat) (arrays : list ndarray)
  : result nat :=
  match arrays with
  | [] => OK 0%nat
  | a :: arrays' =>
      if negb (ndim a =? nd)%nat then
        Raise (Exn ValueError
                 ("all the input arrays must have same number of dimensions, but the array at index 0 has "
                  +:+ str_nat nd +:+ " dimension(s) and the array at index "
                  +:+ str_nat i +:+ " has " +:+ str_nat (ndim a) +:+ " dimension(s)"))
      else if negb (shape_eqb (tail (shape a)) tl) then
        Raise (Exn ValueError
                 "all the input array dimensions except for the concatenation axis must match exactly")
      else
        n ← concatenate_rest nd tl (S i) arrays';
        mret (hd 0%nat (shape a) + n)%nat
  end.

(** [np.concatenate(arrays)] *)
Definition np_concatenate (arrays : list ndarray) : result ndarray :=
  match arrays with
  | [] => Raise (Exn ValueError "need at least one array to concatenate")
  | a :: rest =>
      match shape a with
      | [] => Raise (Exn ValueError "zero-dimensional arrays cannot be concatenated")
      | n :: tl =>
          m ← concatenate_rest (ndim a) tl 1 rest;
          mret (mkArray ((n + m)%nat :: tl) (concat (map data arrays)))
      end
  end.

(** [a.flatten()] *)
Definition flatten (a : ndarray) : list spec_float := data a.

(** ** [class MusicService] *)

(** The loaded model, through the one method the service calls. *)
Record Model := mkModel {
  predict : ndarray -> result ndarray
}.

Record MusicService := mkMusicService {
  model : Model
}.

(** [chord_map], the dictionary literal of [_chord_to_vector]. *)
Definition chord_map : gmap string (list Z) :=
  <["Fmaj7" := [0; 0; 0; 0; 0; 0; 1]]>
  (<["A7" := [0; 0; 0; 0; 0; 1; 0]]>
  (<["Em7" := [0; 0; 0; 0; 1; 0; 0]]>
  (<["D7" := [0; 0; 0; 1; 0; 0; 0]]>
  (<["Am7" := [0; 0; 1; 0; 0; 0; 0]]>
  (<["G7" := [0; 1; 0; 0; 0; 0; 0]]>
  (<["Cmaj7" := [1; 0; 0; 0; 0; 0; 0]]> ∅)))))).

Definition _chord_to_vector (chord : string) : result ndarray :=
  np_array (default (replicate 7 0) (chord_map !! chord)).

Definition _validate_input (input_data : MusicInput) : result bool :=
  if bool_decide (melody input_data = []) || (Z.of_nat (length (melody input_data)) <? 5)%Z then
    Raise (Exn ValueError "Melody must contain at least 5 notes")
  else if bool_decide (chords input_data = []) || (Z.of_nat (length (chords input_data)) <? 2)%Z then
    Raise (Exn ValueError "At least 2 chords are required")
  else if (tempo input_data <? 40)%Z || (tempo input_data >? 240)%Z then
    Raise (Exn ValueError "Tempo must be between 40 and 240 BPM")
  else OK true.

Definition _process_input (input_data : MusicInput) : M ndarray :=
  melody ← lift (np_array (melody input_data));
  vectors ← comprehensionM
              (fun chord => observed "_chord_to_vector" (lift (_chord_to_vector chord)))
              (chords input_data);
  chords ← lift (np_array_of_arrays vectors);
  tempo ← lift (np_array [tempo input_data]);
  lift (np_concatenate [melody; chords; tempo]).

Definition _convert_to_notes (prediction : ndarray) : result (list Z) :=
  comprehension int_of_float (flatten prediction).

Section Service.

(** [tf.keras.models.load_model(path)] *)
Variable load_model : string -> result Model.

(** [str(input_data)], pydantic's rendering of the request. *)
Variable str_MusicInput : MusicInput -> string.

Definition _load_model : M Model :=
  try_except
    (model ← lift (load_model "music_model.h5");
     logging_info "Model loaded successfully";;
     mret model)
    (fun e =>
       logging_error ("Failed to load model: " +:+ exn_str e);;
       raise e).

(** [MusicService.__init__] *)
Definition MusicService__init__ : M MusicService :=
  model ← _load_model;
  mret (mkMusicService model).

Definition generate_harmony (self : MusicService) (input_data : MusicInput) : M (list Z) :=
  try_except
    (observed "_validate_input" (lift (_validate_input input_data));;
     logging_info ("Generating harmony with input: " +:+ str_MusicInput input_data);;
     processed_input ← observed "_process_input" (_process_input input_data);
     prediction ← observed "predict" (lift (predict (model self) processed_input));
     harmony_notes ← observed "_convert_to_notes" (lift (_convert_to_notes prediction));
     mret harmony_notes)
    (fun e =>
       logging_error ("Error generating harmony: " +:+ exn_str e);;
       raise e).

End Service.
End Services.

(** * Vocabulary of the statements *)

Module Spec.

(** ** Tokens: a letter, an accidental group and a digit group *)

Fixpoint all_digits (s : string) : bool :=
  match s with
  | EmptyString => true
  | String c r => is_digit c && all_digits r
  end.

(** The number a digit string denotes, most significant digit first. *)
Fixpoint digits_acc (s : string) (acc : Z) : Z :=
  match s with
  | EmptyString => acc
  | String c r => digits_acc r (10 * acc + (Z.of_N (code c) - 48))
  end.
Definition digits_value (s : string) : Z := digits_acc s 0.

(** A digit string without its leading zeros, keeping its last digit. *)
Fixpoint strip_zeros (s : string) : string :=
  match s with
  | String c (String _ _ as r) => if Ascii.eqb c "0" then strip_zeros r else s
  | _ => s
  end.

(** A digit string of two or more digits does not start with a zero. *)
Definition no_leading_zero (d : string) : bool :=
  match d with
  | String c (String _ _) => negb (Ascii.eqb c "0")
  | _ => true
  end.

Record token := mkToken {
  letter : ascii;
  acc_group : string;
  digit_group : string
}.

(** The token matches [^[A-Ga-g][#b]?\d+$] with these three groups. *)
Definition well_formed (k : token) : Prop :=
  Utils.is_letter_AGag (letter k) = true /\
  (acc_group k = "" \/ acc_group k = "#" \/ acc_group k = "b") /\
  digit_group k <> "" /\
  all_digits (digit_group k) = true.

Definition text (k : token) : string :=
  String (letter k) (acc_group k +:+ digit_group k).

(** The digit string is within CPython's conversion limit. *)
Definition short (d : string) : Prop :=
  (N.of_nat (String.length d) <= max_str_digits)%N.

(** A well-formed token whose digit group [int] converts. *)
Definition parsable (k : token) : Prop := well_formed k /\ short (digit_group k).

(** [n] times the digit 1. *)
Fixpoint ones (n : nat) : string :=
  match n with
  | O => EmptyString
  | S n' => String "1" (ones n')
  end.

(** The token of the letter [c] and 4301 digits, one more than the limit:
    [c + '1' * 4301]. *)
Definition long_token (c : ascii) : token := mkToken c "" (ones 4301).

(** The token with its pitch letter in upper case. *)
Definition uppercased (k : token) : string :=
  String (upper_char (letter k)) (acc_group k +:+ digit_group k).

(** The token with its pitch letter in upper case and its octave in
    canonical decimal. *)
Definition canonical (k : token) : string :=
  String (upper_char (letter k)) (acc_group k +:+ strip_zeros (digit_group k)).

(** The note that the groups of a token describe. *)
Definition note_of (k : token) : Utils.Note :=
  Utils.mkNote (String (upper_char (letter k)) "") (Some (acc_group k))
    (digits_value (digit_group k)).

(** ** Chords *)

(** The vocabulary, in its enumeration order. *)
Definition vocabulary : list string :=
  ["Cmaj7"; "G7"; "Am7"; "D7"; "Em7"; "A7"; "Fmaj7"].

Fixpoint position (x : string) (l : list string) : option nat :=
  match l with
  | [] => None
  | y :: l' => if String.eqb x y then Some 0%nat else S <$> position x l'
  end.

(** 1.0 and 0.0 as [float32]. *)
Definition one32 : spec_float := S754_finite false 8388608 (-23).
Definition zero32 : spec_float := S754_zero false.

Definition zeros (n : nat) : list spec_float := replicate n zero32.
Definition one_hot (n i : nat) : list spec_float := <[i := one32]> (zeros n).

(** ** Harmony requests *)

(** The request violates one of the three bounds. *)
Definition request_invalid (i : Services.MusicInput) : bool :=
  (length (Services.melody i) <? 5)%nat
  || (length (Services.chords i) <? 2)%nat
  || (Services.tempo i <? 40)%Z
  || (240 <? Services.tempo i)%Z.

(** The request of the specification's example: five notes, two chords,
    120 BPM. *)
Definition example_request : Services.MusicInput :=
  Services.mkMusicInput [60; 62; 64; 65; 67] ["Cmaj7"; "G7"] 120.

(** ** Validated records *)

(** The keyword arguments carry a pitch that is a string accepted by
    the pattern of [validate_pitch]. *)
Definition pitch_accepted (kwargs : gmap string Models.pyval) : bool :=
  match kwargs !! "pitch" with
  | Some (Models.PStr s) => Models.re_match_pitch s
  | _ => false
  end.

(** The batch of the specification's example: no notes, no chords, and
    the rhythm [{beats: [1.0], tempo: 100}]. *)
Definition example_data : gmap string Models.pyval :=
  <["notes" := Models.PList []]>
  (<["chords" := Models.PList []]>
  (<["rhythm" := Models.PDict
                   (<["beats" := Models.PList [Models.PFloat (round64 1)]]>
                   (<["tempo" := Models.PInt 100]> ∅))]> ∅)).

Definition example_result : Models.MusicData :=
  Models.mkMusicData [] [] (Models.mkRhythmicPattern [round64 1] (round64 100)).

(** A batch of one note, one chord progression of two notes and a rhythm. *)
Definition note_kwargs (pitch : string) (timing : Z) : Models.pyval :=
  Models.PDict (<["pitch" := Models.PStr pitch]>
               (<["duration" := Models.PFloat (round64 1)]>
               (<["timing" := Models.PInt timing]> ∅))).

Definition song_data : gmap string Models.pyval :=
  <["notes" := Models.PList [note_kwargs "C4" 0]]>
  (<["chords" := Models.PList
                   [Models.PDict
                      (<["notes" := Models.PList [note_kwargs "E4" 0; note_kwargs "G#4" 1]]>
                      (<["key" := Models.PStr "C"]> ∅))]]>
  (<["rhythm" := Models.PDict
                   (<["beats" := Models.PList [Models.PFloat (round64 1)]]>
                   (<["tempo" := Models.PInt 100]> ∅))]> ∅)).

Definition song_result : Models.MusicData :=
  Models.mkMusicData
    [Models.mkMusicNote "C4" (round64 1) (round64 0)]
    [Models.mkChordProgression
       [Models.mkMusicNote "E4" (round64 1) (round64 0);
        Models.mkMusicNote "G#4" (round64 1) (round64 1)] "C"]
    (Models.mkRhythmicPattern [round64 1] (round64 100)).

(** The rules of the three validators, read on the validated records: the
    pitch matches the pattern, the key is not blank, and the tempo does not
    compare [<= 0]. *)
Definition note_valid (n : Models.MusicNote) : bool :=
  Models.re_match_pitch (Models.pitch n).
Definition chord_valid (c : Models.ChordProgression) : bool :=
  forallb note_valid (Models.notes c) && negb (String.eqb (strip (Models.key c)) "").
Definition rhythm_valid (r : Models.RhythmicPattern) : bool :=
  negb (SFleb (Models.tempo r) (S754_zero false)).
Definition batch_valid (d : Models.MusicData) : bool :=
  forallb note_valid (Models.data_notes d)
  && forallb chord_valid (Models.data_chords d)
  && rhythm_valid (Models.data_rhythm d).

(** Stand-ins for the two library behaviours, for concrete runs: no
    string is read as a float, and an error is rendered as its count and
    its model. *)
Definition no_float_strings : string -> option spec_float := fun _ => None.
Definition render_summary (model : string) (errs : Models.errors) : string :=
  str_int (Z.of_nat (length errs)) +:+ " validation errors for " +:+ model.

(** ** Predictions *)


(** An [int] survives the cast to [float32] and the truncation back. *)
Definition survives_float32 (n : Z) : bool :=
  match Services.float32 n with
  | OK f => match int_of_float f with OK m => (m =? n)%Z | Raise _ => false end
  | Raise _ => false
  end.

(** [survives_float32] on the [fuel] integers from [z] on. *)
Fixpoint survive_from (z : Z) (fuel : nat) : bool :=
  match fuel with
  | O => true
  | S fuel' => survives_float32 z && survive_from (z + 1) fuel'
  end.

(** ** Chord progressions *)

(** The string is empty or holds white space only. *)
Fixpoint blank (s : string) : bool :=
  match s with
  | EmptyString => true
  | String c r => is_space c && blank r
  end.

(** The keyword arguments carry a key that is a string with a character
    other than white space. *)
Definition key_accepted (kwargs : gmap string Models.pyval) : bool :=
  match kwargs !! "key" with
  | Some (Models.PStr s) => negb (String.eqb (strip s) "")
  | _ => false
  end.

(** The keyword arguments carry a list of notes that [MusicNote] accepts. *)
Definition notes_accepted (float_of_str : string -> option spec_float)
    (render : string -> Models.errors -> string) (kwargs : gmap string Models.pyval) : bool :=
  match kwargs !! "notes" with
  | Some (Models.PList l) =>
      forallb (fun v => is_ok (Models.MusicNote_new float_of_str render v)) l
  | _ => false
  end.

(** ** Batch validation: the sub-validations in the order they run *)

Definition void {A} (r : result A) : result unit := (fun _ => tt) <$> r.

Definition element_steps {A} (new : Models.pyval -> result A) (value : Models.pyval)
  : list (result unit) :=
  match Models.iterate value with
  | OK l => map (fun v => void (new v)) l
  | Raise e => [Raise e]
  end.

Definition steps (float_of_str : string -> option spec_float)
    (render : string -> Models.errors -> string) (data : gmap string Models.pyval)
  : list (result unit) :=
  element_steps (Models.MusicNote_new float_of_str render)
    (Models.get data "notes" (Models.PList []))
  ++ element_steps (Models.ChordProgression_new float_of_str render)
       (Models.get data "chords" (Models.PList []))
  ++ [void (Models.RhythmicPattern_new float_of_str render
              (Models.get data "rhythm" (Models.PDict ∅)))].

Fixpoint first_error (l : list (result unit)) : option exn :=
  match l with
  | [] => None
  | OK _ :: l' => first_error l'
  | Raise e :: _ => Some e
  end.

End Spec.
Import Spec.

(** Case analysis on the first comparison of [x] with a string literal. *)
Ltac case_eqb x :=
  match goal with
  | |- context [String.eqb x ?s] => destruct (String.eqb_spec x s)
  end.

(** * Facts about the runtime *)

(** How a bind and a handler run. *)
Lemma bind_unfold {A B} (m : M A) (f : A -> M B) (t : trace) :
  (m ≫= f) t =
  match m t with
  | (OK a, t') => f a t'
  | (Raise e, t') => (Raise e, t')
  end.
Proof. reflexivity. Qed.

Lemma try_unfold {A} (body : M A) (handler : exn -> M A) (t : trace) :
  try_except body handler t =
  match body t with
  | (OK a, t') => (OK a, t')
  | (Raise e, t') => handler e t'
  end.
Proof. reflexivity. Qed.

Lemma log_then_raise {A} (text : string) (e : exn) (t : trace) :
  (logging_error text;; raise (A := A) e) t = (Raise e, t ++ [Log ERROR text]).
Proof. reflexivity. Qed.

Lemma all_digits_parse d :
  all_digits d = true -> exists u, NilEmpty.uint_of_string d = Some u.
Proof.
  induction d as [|c d IH]; simpl; [eauto|].
  intros [Hc Hd]%andb_prop. destruct (IH Hd) as [u ->].
  destruct c as [[] [] [] [] [] [] [] []]; try discriminate Hc; simpl; eauto.
Qed.

Lemma of_uint_acc_digits u acc :
  Z.pos (Pos.of_uint_acc u acc) = digits_acc (NilEmpty.string_of_uint u) (Z.pos acc).
Proof.
  revert acc; induction u; intros acc; simpl; [reflexivity| rewrite IHu; f_equal; lia ..].
Qed.

Lemma of_uint_digits u : Z.of_uint u = digits_value (NilEmpty.string_of_uint u).
Proof.
  unfold Z.of_uint, digits_value.
  induction u; simpl; [reflexivity | assumption | rewrite of_uint_acc_digits; reflexivity ..].
Qed.

Lemma digits_acc_nonneg d acc : (0 <= acc)%Z -> all_digits d = true -> (0 <= digits_acc d acc)%Z.
Proof.
  revert acc; induction d as [|c d IH]; simpl; intros acc Hacc; [auto|].
  intros [Hc Hd]%andb_prop. apply IH; [|assumption].
  unfold is_digit, in_range in Hc. apply andb_prop in Hc as [H1 H2].
  apply N.leb_le in H1. lia.
Qed.

(** [int] on a digit group is the number the group denotes. *)
Lemma int_digits d :
  d <> "" -> all_digits d = true -> short d -> int d = OK (digits_value d).
Proof.
  intros Hne Hd Hs. destruct (all_digits_parse d Hd) as [u Hu].
  unfold int, NilZero.uint_of_string. destruct d; [congruence|].
  rewrite Hu. apply N.ltb_ge in Hs. rewrite Hs.
  f_equal. rewrite of_uint_digits. f_equal. now apply NilEmpty.sus.
Qed.

(** [int] on a digit group longer than the limit raises. *)
Lemma int_long d :
  all_digits d = true -> ~ short d ->
  int d = Raise (int_limit_error (String.length d)).
Proof.
  intros Hd Hs. destruct (all_digits_parse d Hd) as [u Hu].
  assert (Hne : d <> "") by (intros ->; apply Hs; unfold short, max_str_digits; simpl; lia).
  unfold int, NilZero.uint_of_string. destruct d; [congruence|].
  rewrite Hu.
  assert (Hlt : (max_str_digits <? N.of_nat (String.length (String a d)))%N = true).
  { apply N.ltb_lt. unfold short in Hs. lia. }
  now rewrite Hlt.
Qed.

Lemma string_of_uint_nil u : NilEmpty.string_of_uint u = "" -> u = Nil.
Proof. destruct u; simpl; congruence. Qed.

Lemma string_of_unorm u :
  u <> Nil ->
  NilEmpty.string_of_uint (unorm u) = strip_zeros (NilEmpty.string_of_uint u).
Proof.
  induction u; intros Hne;
    [congruence | | simpl; now destruct (NilEmpty.string_of_uint u) ..].
  rewrite unorm_D0. simpl NilEmpty.string_of_uint at 2.
  destruct u; try (rewrite IHu by discriminate; reflexivity).
  reflexivity.
Qed.

(** [str(int(d))] drops the leading zeros of a digit group. *)
Lemma str_int_digits d :
  d <> "" -> all_digits d = true -> str_int (digits_value d) = strip_zeros d.
Proof.
  intros Hne Hd. destruct (all_digits_parse d Hd) as [u Hu].
  pose proof (NilEmpty.sus _ _ Hu) as Hs. subst d.
  assert (u <> Nil) by (intros ->; now apply Hne).
  rewrite <- of_uint_digits. unfold str_int.
  change (Z.of_uint u) with (Z.of_int (Pos u)). rewrite DecimalZ.to_of. simpl.
  unfold NilZero.string_of_uint.
  pose proof (unorm_nonnil u). rewrite <- string_of_unorm by assumption.
  now destruct (unorm u).
Qed.

Lemma strip_zeros_length d : (String.length (strip_zeros d) <= String.length d)%nat.
Proof.
  induction d as [|c d IH]; [reflexivity|].
  destruct d as [|c' d]; [reflexivity|].
  change (strip_zeros (String c (String c' d)))
    with (if Ascii.eqb c "0" then strip_zeros (String c' d) else String c (String c' d)).
  destruct (Ascii.eqb c "0"); [|reflexivity].
  simpl String.length in *. lia.
Qed.

Lemma short_cases d : short d \/ ~ short d.
Proof. unfold short. lia. Qed.

(** [str] of the number of a digit group within the limit is the group
    without its leading zeros. *)
Lemma format_int_digits d :
  d <> "" -> all_digits d = true -> short d ->
  format_int (digits_value d) = OK (strip_zeros d).
Proof.
  intros Hne Hd Hs. unfold format_int. rewrite (str_int_digits d Hne Hd).
  pose proof (digits_acc_nonneg d 0 ltac:(lia) Hd) as Hpos. fold (digits_value d) in Hpos.
  pose proof (strip_zeros_length d) as Hlen. unfold short in Hs.
  assert (Hlt : (max_str_digits <? N.of_nat (String.length (strip_zeros d)))%N = false)
    by (apply N.ltb_ge; lia).
  destruct (digits_value d); [now rewrite Hlt .. | lia].
Qed.

Lemma ones_digits n : all_digits (ones n) = true.
Proof. induction n as [|n IH]; [reflexivity|]. simpl. exact IH. Qed.

Lemma ones_length n : String.length (ones n) = n.
Proof. induction n as [|n IH]; [reflexivity|]. simpl. now rewrite IH. Qed.

Lemma strip_zeros_id c d :
  Ascii.eqb c "0" = false -> strip_zeros (String c d) = String c d.
Proof. intros H. simpl. rewrite H. now destruct d. Qed.

Lemma digit_not_sharp_flat c : is_digit c = true -> Utils.is_sharp_flat c = false.
Proof. destruct c as [[] [] [] [] [] [] [] []]; intros H; try discriminate H; reflexivity. Qed.

Lemma span_all_digits d : all_digits d = true -> Utils.span_digits d = (d, "").
Proof.
  induction d as [|c d IH]; simpl; [reflexivity|].
  intros [Hc Hd]%andb_prop. now rewrite Hc, IH.
Qed.

Lemma upper_letter_in c :
  Utils.is_letter_AGag c = true -> str_in (String (upper_char c) "") "ABCDEFG" = true.
Proof. destruct c as [[] [] [] [] [] [] [] []]; intros H; try discriminate H; reflexivity. Qed.

Lemma upper_letter_AG c :
  Utils.is_letter_AGag c = true -> Models.is_letter_AG (upper_char c) = true.
Proof. destruct c as [[] [] [] [] [] [] [] []]; intros H; try discriminate H; reflexivity. Qed.

(** * Facts about [src/utils.py] *)

Lemma append_empty_r s : s +:+ "" = s.
Proof. induction s as [|c s IH]; [reflexivity|]. change (String c (s +:+ "") = String c s). now rewrite IH. Qed.

Lemma append_assoc s1 s2 s3 : (s1 +:+ s2) +:+ s3 = s1 +:+ (s2 +:+ s3).
Proof.
  induction s1 as [|c s1 IH]; [reflexivity|].
  change (String c ((s1 +:+ s2) +:+ s3) = String c (s1 +:+ (s2 +:+ s3))). now rewrite IH.
Qed.

Lemma at_dollar_spec s :
  Utils.at_dollar s = true -> s = "" \/ s = String Utils.newline "".
Proof.
  destruct s as [|c [|c' s]]; simpl; auto; [|discriminate].
  intros H%Ascii.eqb_eq. subst. auto.
Qed.

Lemma span_digits_app d r :
  all_digits d = true ->
  match r with String c _ => is_digit c = false | EmptyString => True end ->
  Utils.span_digits (d +:+ r) = (d, r).
Proof.
  intros Hd Hr. induction d as [|c d IH].
  - change ("" +:+ r) with r. destruct r as [|c r]; [reflexivity|]. simpl. now rewrite Hr.
  - change (String c d +:+ r) with (String c (d +:+ r)). simpl in *.
    apply andb_prop in Hd as [Hc Hd]. now rewrite Hc, (IH Hd).
Qed.

(** The text of a token followed by [r]. *)
Lemma text_append k r :
  text k +:+ r = String (letter k) (acc_group k +:+ (digit_group k +:+ r)).
Proof.
  unfold text. change (String (letter k) ((acc_group k +:+ digit_group k) +:+ r) = 
                       String (letter k) (acc_group k +:+ (digit_group k +:+ r))).
  now rewrite append_assoc.
Qed.

(** The matcher on a well-formed token, alone or followed by a newline,
    returns the token's three groups. *)
Lemma re_match_note_dollar k r :
  well_formed k -> Utils.at_dollar r = true ->
  Utils.re_match_note (text k +:+ r) = Some (String (letter k) "", acc_group k, digit_group k).
Proof.
  rewrite text_append. destruct k as [l a d]. unfold well_formed; simpl.
  intros (Hl & Ha & Hne & Hd) Hr. rewrite Hl.
  assert (Hspan : Utils.span_digits (d +:+ r) = (d, r)).
  { apply span_digits_app; [assumption|].
    destruct (at_dollar_spec r Hr) as [-> | ->]; [exact I | reflexivity]. }
  destruct d as [|c d']; [congruence|].
  assert (Hc : is_digit c = true) by (simpl in Hd; now apply andb_prop in Hd).
  change (String c d' +:+ r) with (String c (d' +:+ r)) in *.
  destruct Ha as [-> | [-> | ->]].
  - change ("" +:+ String c (d' +:+ r)) with (String c (d' +:+ r)). cbv iota.
    rewrite (digit_not_sharp_flat c Hc). now rewrite Hspan, Hr.
  - change ("#" +:+ String c (d' +:+ r)) with (String "#" (String c (d' +:+ r))). cbv iota.
    change (Utils.is_sharp_flat "#") with true. cbv iota. now rewrite Hspan, Hr.
  - change ("b" +:+ String c (d' +:+ r)) with (String "b" (String c (d' +:+ r))). cbv iota.
    change (Utils.is_sharp_flat "b") with true. cbv iota. now rewrite Hspan, Hr.
Qed.

Lemma re_match_note_well_formed k :
  well_formed k ->
  Utils.re_match_note (text k) = Some (String (letter k) "", acc_group k, digit_group k).
Proof.
  intros Hk. rewrite <- (append_empty_r (text k)). now apply re_match_note_dollar.
Qed.

Lemma span_digits_spec s d r :
  Utils.span_digits s = (d, r) ->
  s = d +:+ r /\ all_digits d = true
  /\ match r with String c _ => is_digit c = false | EmptyString => True end.
Proof.
  revert d r; induction s as [|c s IH]; simpl; intros d r.
  - intros [= <- <-]. auto.
  - destruct (is_digit c) eqn:Hc.
    + destruct (Utils.span_digits s) as [d' t]. intros [= <- <-].
      destruct (IH d' t eq_refl) as (-> & Hd & Hr). simpl. rewrite Hc. auto.
    + intros [= <- <-]. simpl. rewrite Hc. auto.
Qed.

(** Conversely, what the matcher accepts is a well-formed token, possibly
    followed by one newline, and the groups are the token's. *)
Lemma re_match_note_inv s g1 g2 g3 :
  Utils.re_match_note s = Some (g1, g2, g3) ->
  exists k,
    well_formed k
    /\ (s = text k \/ s = text k +:+ String Utils.newline "")
    /\ g1 = String (letter k) "" /\ g2 = acc_group k /\ g3 = digit_group k.
Proof.
  destruct s as [|c r]; simpl; [discriminate|].
  destruct (Utils.is_letter_AGag c) eqn:Hc; [|discriminate].
  set (p := match r with
            | String a r' =>
                if Utils.is_sharp_flat a then (String a "", r') else ("", r)
            | EmptyString => ("", r)
            end).
  assert (Hp : r = p.1 +:+ p.2 /\ (p.1 = "" \/ p.1 = "#" \/ p.1 = "b")).
  { subst p. destruct r as [|a r']; simpl; [auto|].
    destruct (Utils.is_sharp_flat a) eqn:Ha; simpl; [|auto].
    split; [reflexivity|]. unfold Utils.is_sharp_flat in Ha.
    apply orb_prop in Ha as [Ha%Ascii.eqb_eq | Ha%Ascii.eqb_eq]; subst; auto. }
  destruct p as [acc r1]; simpl in Hp. destruct Hp as [-> Hacc].
  destruct (Utils.span_digits r1) as [digits r2] eqn:Hspan.
  destruct (span_digits_spec _ _ _ Hspan) as (-> & Hd & _).
  destruct digits as [|d0 ds]; [discriminate|].
  destruct (Utils.at_dollar r2) eqn:Hend; [|discriminate].
  intros [= <- <- <-]. exists (mkToken c acc (String d0 ds)).
  split; [repeat split; auto; discriminate|].
  split; [|auto]. unfold text; cbn [letter acc_group digit_group].
  destruct (at_dollar_spec _ Hend) as [-> | ->].
  - left. now rewrite append_empty_r.
  - right. change (String c (acc +:+ String d0 ds) +:+ String Utils.newline "")
      with (String c ((acc +:+ String d0 ds) +:+ String Utils.newline "")).
    now rewrite append_assoc.
Qed.

(** The pattern of [validate_pitch] is the parser's pattern with the
    letter in upper case only. *)
Lemma re_match_pitch_note s :
  Models.re_match_pitch s =
  match s, Utils.re_match_note s with
  | String c _, Some _ => Models.is_letter_AG c
  | _, _ => false
  end.
Proof.
  destruct s as [|c r]; [reflexivity|]. unfold Models.re_match_pitch, Utils.re_match_note.
  assert (Hsub : Models.is_letter_AG c = true -> Utils.is_letter_AGag c = true).
  { unfold Utils.is_letter_AGag, Models.is_letter_AG. now intros ->. }
  destruct (Models.is_letter_AG c) eqn:Hc.
  - rewrite (Hsub eq_refl).
    destruct r as [|a r']; [reflexivity|].
    destruct (Utils.is_sharp_flat a);
      (destruct (Utils.span_digits _) as [[|d0 ds] r2]; [reflexivity|];
       now destruct (Utils.at_dollar r2)).
  - destruct (Utils.is_letter_AGag c); [|reflexivity].
    destruct r as [|a r']; [reflexivity|].
    destruct (Utils.is_sharp_flat a);
      (destruct (Utils.span_digits _) as [[|d0 ds] r2]; [reflexivity|];
       now destruct (Utils.at_dollar r2)).
Qed.

(** The body of [parse_note] on a well-formed token whose digit group is
    within the limit of [int], alone or followed by a newline. *)
Lemma parse_note_body_dollar k r :
  parsable k -> Utils.at_dollar r = true ->
  Utils.parse_note_body (text k +:+ r) = OK (note_of k).
Proof.
  intros [Hk Hs] Hr. unfold Utils.parse_note_body, note_of.
  rewrite (re_match_note_dollar k r Hk Hr).
  destruct Hk as (Hl & Ha & Hne & Hd).
  rewrite (int_digits _ Hne Hd Hs). simpl.
  change (upper (String (letter k) "")) with (String (upper_char (letter k)) "").
  rewrite (upper_letter_in _ Hl). simpl.
  now destruct Ha as [-> | [-> | ->]].
Qed.

Lemma parse_note_body_well_formed k :
  parsable k -> Utils.parse_note_body (text k) = OK (note_of k).
Proof.
  intros Hk. rewrite <- (append_empty_r (text k)). now apply parse_note_body_dollar.
Qed.

(** The body of [parse_note] on a well-formed token whose digit group is
    beyond the limit of [int]: the conversion raises. *)
Lemma parse_note_body_long k r :
  well_formed k -> ~ short (digit_group k) -> Utils.at_dollar r = true ->
  Utils.parse_note_body (text k +:+ r)
  = Raise (int_limit_error (String.length (digit_group k))).
Proof.
  intros Hk Hs Hr. unfold Utils.parse_note_body.
  rewrite (re_match_note_dollar k r Hk Hr).
  destruct Hk as (_ & _ & _ & Hd).
  now rewrite (int_long _ Hd Hs).
Qed.

(** What the body of [parse_note] returns, it returns for a token that is
    well formed and within the limit, alone or followed by a newline. *)
Lemma parse_note_body_inv s n :
  Utils.parse_note_body s = OK n ->
  exists k,
    parsable k
    /\ (s = text k \/ s = text k +:+ String Utils.newline "")
    /\ n = note_of k.
Proof.
  intros H.
  destruct (Utils.re_match_note s) as [[[g1 g2] g3]|] eqn:Hm;
    [|unfold Utils.parse_note_body in H; rewrite Hm in H; discriminate H].
  destruct (re_match_note_inv s g1 g2 g3 Hm) as (k & Hk & Hs & _).
  exists k. destruct (short_cases (digit_group k)) as [Hshort | Hlong].
  - split; [now split|]. split; [exact Hs|].
    assert (Hn : Utils.parse_note_body s = OK (note_of k)).
    { destruct Hs as [-> | ->]; [now apply parse_note_body_well_formed|].
      now apply parse_note_body_dollar. }
    rewrite Hn in H. now injection H.
  - exfalso.
    assert (Hn : Utils.parse_note_body s
                 = Raise (int_limit_error (String.length (digit_group k)))).
    { destruct Hs as [-> | ->]; [|now apply parse_note_body_long].
      rewrite <- (append_empty_r (text k)). now apply parse_note_body_long. }
    rewrite Hn in H. discriminate H.
Qed.

Lemma parse_note_run s n t :
  Utils.parse_note_body s = OK n -> Utils.parse_note s t = (OK n, t).
Proof. intros H. unfold Utils.parse_note, try_except, lift. now rewrite H. Qed.

Lemma parse_note_run_inv s n t t' :
  Utils.parse_note s t = (OK n, t') -> Utils.parse_note_body s = OK n /\ t' = t.
Proof.
  unfold Utils.parse_note, try_except, lift.
  destruct (Utils.parse_note_body s); simpl; [now intros [= -> ->]|].
  unfold mbind, M_bind, logging_error, emit, raise. simpl. discriminate.
Qed.

Lemma parse_note_run_raise s e t :
  Utils.parse_note_body s = Raise e ->
  Utils.parse_note s t =
  (Raise e, t ++ [Log ERROR ("Error parsing note " +:+ s +:+ ": " +:+ exn_str e)]).
Proof.
  intros H. unfold Utils.parse_note. rewrite try_unfold. unfold lift. rewrite H.
  apply log_then_raise.
Qed.

(** [parse_note] on a well-formed token beyond the limit raises the error
    of [int] and logs it. *)
Lemma parse_note_long k t :
  well_formed k -> ~ short (digit_group k) ->
  Utils.parse_note (text k) t =
  (Raise (int_limit_error (String.length (digit_group k))),
   t ++ [Log ERROR ("Error parsing note " +:+ text k +:+ ": "
                    +:+ exn_str (int_limit_error (String.length (digit_group k))))]).
Proof.
  intros Hk Hs. apply parse_note_run_raise.
  rewrite <- (append_empty_r (text k)). now apply parse_note_body_long.
Qed.

Lemma long_token_well_formed c :
  Utils.is_letter_AGag c = true ->
  well_formed (long_token c) /\ ~ short (digit_group (long_token c)).
Proof.
  intros Hc. split.
  - split; [exact Hc|]. split; [now left|]. split; [discriminate | apply ones_digits].
  - unfold short, long_token, digit_group. rewrite ones_length.
    intros H. apply H. vm_compute. reflexivity.
Qed.

Lemma format_notes_run notes formatted t :
  comprehension Utils.format_note notes = OK formatted ->
  Utils.format_notes notes t = (OK (join " " formatted), t).
Proof.
  intros H. unfold Utils.format_notes, try_except, lift, Utils.format_notes_body.
  now rewrite H.
Qed.

Lemma format_note_parsed k :
  parsable k ->
  Utils.format_note
    (Utils.mkNote (String (upper_char (letter k)) "") (Some (acc_group k))
       (digits_value (digit_group k)))
  = OK (canonical k).
Proof.
  intros [(Hl & Ha & Hne & Hd) Hs]. unfold Utils.format_note, canonical. simpl.
  rewrite (format_int_digits _ Hne Hd Hs).
  now destruct Ha as [-> | [-> | ->]].
Qed.

Lemma format_all_parsed ks :
  Forall parsable ks ->
  comprehension Utils.format_note (map note_of ks) = OK (map canonical ks).
Proof.
  induction 1 as [|k ks Hk _ IH]; [reflexivity|].
  cbn [map comprehension].
  change (Utils.format_note (note_of k)) with
    (Utils.format_note
       (Utils.mkNote (String (upper_char (letter k)) "") (Some (acc_group k))
          (digits_value (digit_group k)))).
  now rewrite (format_note_parsed k Hk), IH.
Qed.

(** [parse_note] on a well-formed token within the limit returns the note
    of its groups and logs nothing. *)
Lemma parse_note_well_formed k t :
  parsable k ->
  Utils.parse_note (text k) t =
  (OK (Utils.mkNote (String (upper_char (letter k)) "") (Some (acc_group k))
         (digits_value (digit_group k))), t).
Proof. intros Hk. apply parse_note_run. now apply parse_note_body_well_formed. Qed.

(** C5, as stated, fails on the token of "C" and 4301 digits: the pattern
    accepts it, and [parse_note] raises and logs the [ValueError] of [int],
    which converts at most 4300 digits. *)
Lemma parse_note_long_octave_raises :
  Utils.re_match_note (text (long_token "C")) = Some ("C", "", ones 4301)
  /\ Utils.parse_note (text (long_token "C")) [] =
     (Raise (Exn ValueError
               "Exceeds the limit (4300 digits) for integer string conversion: value has 4301 digits; use sys.set_int_max_str_digits() to increase the limit"),
      [Log ERROR
         ("Error parsing note " +:+ text (long_token "C")
          +:+ ": Exceeds the limit (4300 digits) for integer string conversion: value has 4301 digits; use sys.set_int_max_str_digits() to increase the limit")]).
Proof.
  destruct (long_token_well_formed "C" eq_refl) as [Hk Hs]. split.
  - exact (re_match_note_well_formed _ Hk).
  - rewrite (parse_note_long _ [] Hk Hs).
    unfold long_token, digit_group. rewrite ones_length. reflexivity.
Qed.

(** C5, amended: for every token made of a letter A-G or a-g, an optional
    # or b and 1 to 4300 digits 0-9 (alone, or followed by the one newline
    that [re.match] lets [$] skip), [parse_note] succeeds and logs nothing;
    the pitch of the note is the letter in upper case (one of A to G), its
    accidental is the captured accidental group and its octave is the
    non-negative integer that the digit group denotes. *)
Theorem parse_note_recovers_components (k : token) (t : trace) :
  parsable k ->
  Utils.parse_note (text k) t =
    (OK (Utils.mkNote (String (upper_char (letter k)) "") (Some (acc_group k))
           (digits_value (digit_group k))), t)
  /\ Utils.parse_note (text k +:+ String Utils.newline "") t =
       (OK (Utils.mkNote (String (upper_char (letter k)) "") (Some (acc_group k))
              (digits_value (digit_group k))), t)
  /\ Models.is_letter_AG (upper_char (letter k)) = true
  /\ (0 <= digits_value (digit_group k))%Z.
Proof.
  intros Hk. split; [now apply parse_note_well_formed|].
  split; [apply parse_note_run; now apply parse_note_body_dollar|].
  destruct Hk as [(Hl & _ & _ & Hd) _]. split; [now apply upper_letter_AG|].
  now apply digits_acc_nonneg.
Qed.

Lemma parse_note_recovers_components_witness :
  parsable (mkToken "c" "#" "5") /\
  Utils.parse_note "c#5" [] = (OK (Utils.mkNote "C" (Some "#") 5), []).
Proof.
  assert (H : parsable (mkToken "c" "#" "5")).
  { split; [|unfold short, max_str_digits; simpl; lia].
    unfold well_formed; simpl. repeat split; auto; discriminate. }
  split; [exact H|].
  exact (proj1 (parse_note_recovers_components (mkToken "c" "#" "5") [] H)).
Defined.

(** C6, as stated, fails on "C4": the accidental that [parse_note] stores
    is not the [None] of the data model. *)
Lemma parse_note_natural_not_none :
  exists n, Utils.parse_note "C4" [] = (OK n, [])
            /\ Utils.accidental n <> None
            /\ Utils.accidental n <> Utils.accidental (Utils.Note_pitch_octave "C" 4).
Proof. eexists; split; [reflexivity|]. split; discriminate. Qed.

(** C6, amended: for a token of at most 4300 digits whose accidental group
    is empty, the note that [parse_note] produces stores the empty string as
    its accidental, which [format_notes] reads like [None]; for such a token
    with an accidental, the stored accidental is exactly "#" or "b". *)
Theorem parse_note_accidental_stored (k : token) (t : trace) :
  parsable k ->
  exists n,
    Utils.parse_note (text k) t = (OK n, t)
    /\ Utils.accidental n = Some (acc_group k)
    /\ (acc_group k = "" ->
        Utils.accidental n = Some "" /\ Utils.or_empty (Utils.accidental n) = Utils.or_empty None)
    /\ (acc_group k <> "" ->
        Utils.accidental n = Some "#" \/ Utils.accidental n = Some "b").
Proof.
  intros Hk. eexists. split; [now apply parse_note_well_formed|].
  destruct k as [l a d], Hk as [(_ & Ha & _) _]. simpl in *.
  split; [reflexivity|]. split.
  - intros ->. now split.
  - intros Hne. destruct Ha as [-> | [-> | ->]]; [congruence | now left | now right].
Qed.

Lemma parse_note_accidental_stored_witness :
  parsable (mkToken "C" "" "4") /\
  exists n, Utils.parse_note "C4" [] = (OK n, []) /\ Utils.accidental n = Some "".
Proof.
  assert (H : parsable (mkToken "C" "" "4")).
  { split; [|unfold short, max_str_digits; simpl; lia].
    unfold well_formed; simpl. repeat split; auto; discriminate. }
  split; [exact H|].
  destruct (parse_note_accidental_stored (mkToken "C" "" "4") [] H) as (n & Hn & Ha & _).
  exists n. split; [exact Hn | exact Ha].
Defined.

(** ** [format_notes] after [parse_note] *)

(** The digit strings that [strip_zeros] leaves unchanged. *)
Lemma strip_zeros_fixed d : no_leading_zero d = true <-> strip_zeros d = d.
Proof.
  destruct d as [|c [|c' d]]; try (split; reflexivity).
  change (strip_zeros (String c (String c' d)))
    with (if Ascii.eqb c "0" then strip_zeros (String c' d) else String c (String c' d)).
  change (no_leading_zero (String c (String c' d))) with (negb (Ascii.eqb c "0")).
  pose proof (strip_zeros_length (String c' d)) as Hlen.
  destruct (Ascii.eqb c "0"); [|split; reflexivity].
  split; [discriminate|]. intros H.
  apply (f_equal String.length) in H. rewrite H in Hlen.
  cbn [String.length] in Hlen. lia.
Qed.

Lemma canonical_uppercased k :
  no_leading_zero (digit_group k) = true <-> canonical k = uppercased k.
Proof.
  unfold canonical, uppercased. rewrite strip_zeros_fixed. split; [now intros ->|].
  intros [= H]. now apply String.app_inj in H.
Qed.

Lemma parse_all_well_formed ks t :
  Forall parsable ks ->
  comprehensionM (fun k => Utils.parse_note (text k)) ks t = (OK (map note_of ks), t).
Proof.
  induction 1 as [|k ks Hk _ IH]; [reflexivity|].
  simpl. unfold mbind at 1, M_bind at 1. rewrite (parse_note_well_formed k t Hk).
  unfold mbind at 1, M_bind at 1. now rewrite IH.
Qed.

(** C10, as stated, fails on "C04": formatting the parsed note gives "C4",
    not the token with its letter in upper case. *)
Lemma format_parse_leading_zero :
  well_formed (mkToken "C" "" "04")
  /\ (n ← Utils.parse_note (text (mkToken "C" "" "04")); Utils.format_notes [n]) []
     = (OK "C4", [])
  /\ "C4" <> uppercased (mkToken "C" "" "04").
Proof.
  split; [|split; [reflexivity | discriminate]].
  unfold well_formed; simpl. repeat split; auto; discriminate.
Qed.

(** C10, amended: on tokens made of a letter A-G or a-g, an optional # or
    b and 1 to 4300 digits 0-9, [format_notes] of the parsed notes is the
    space-separated concatenation, in order, of the tokens with the pitch
    letter in upper case, the accidental unchanged and the leading zeros of
    the octave removed; it is the concatenation of the tokens with only the
    letter changed to upper case when no digit group has a leading zero. *)
Theorem format_parse_canonical (ks : list token) (t : trace) :
  Forall parsable ks ->
  (notes ← comprehensionM (fun k => Utils.parse_note (text k)) ks; Utils.format_notes notes) t
    = (OK (join " " (map canonical ks)), t)
  /\ Forall (fun k => no_leading_zero (digit_group k) = true <-> canonical k = uppercased k) ks
  /\ (Forall (fun k => no_leading_zero (digit_group k) = true) ks ->
      join " " (map canonical ks) = join " " (map uppercased ks)).
Proof.
  intros Hks. split.
  - rewrite bind_unfold, (parse_all_well_formed ks t Hks).
    apply format_notes_run. now apply format_all_parsed.
  - split; [apply Forall_forall; intros k _; apply canonical_uppercased|].
    intros Hz. f_equal. apply map_ext_Forall.
    eapply Forall_impl; [exact Hz|]. intros k Hk. now apply canonical_uppercased.
Qed.

Lemma format_parse_canonical_witness :
  Forall parsable [mkToken "e" "b" "2"; mkToken "C" "" "04"] /\
  (notes ← comprehensionM Utils.parse_note ["eb2"; "C04"]; Utils.format_notes notes) []
    = (OK "Eb2 C4", []).
Proof.
  assert (H : Forall parsable [mkToken "e" "b" "2"; mkToken "C" "" "04"]).
  { repeat constructor; simpl; auto; try discriminate; unfold short, max_str_digits; simpl; lia. }
  split; [exact H|].
  exact (proj1 (format_parse_canonical [mkToken "e" "b" "2"; mkToken "C" "" "04"] [] H)).
Defined.

(** ** [Scale] *)

(** C4: for a root that [parse_note] accepts, and with [scale_type] compared
    in lower case: a major scale is the parsed root followed by D, E, F, G,
    A, B at the root's octave; a minor scale is the parsed root followed by
    D, F, G, A, B at the root's octave and C one octave higher; any other
    scale type raises the unsupported-scale-type error. *)
Theorem scale_notes (root scale_type : string) (n : Utils.Note) (t t' : trace) :
  Utils.parse_note root t = (OK n, t') ->
  let o := Utils.octave n in
  (lower scale_type = "major" ->
   Utils.Scale__init__ root scale_type t =
     (OK (Utils.mkScale root scale_type
            [ n; Utils.mkNote "D" None o; Utils.mkNote "E" None o; Utils.mkNote "F" None o;
              Utils.mkNote "G" None o; Utils.mkNote "A" None o; Utils.mkNote "B" None o ]), t'))
  /\ (lower scale_type = "minor" ->
      Utils.Scale__init__ root scale_type t =
        (OK (Utils.mkScale root scale_type
               [ n; Utils.mkNote "D" None o; Utils.mkNote "F" None o; Utils.mkNote "G" None o;
                 Utils.mkNote "A" None o; Utils.mkNote "B" None o;
                 Utils.mkNote "C" None (o + 1) ]), t'))
  /\ (lower scale_type <> "major" -> lower scale_type <> "minor" ->
      Utils.Scale__init__ root scale_type t =
        (Raise (Exn ValueError ("Unsupported scale type: " +:+ scale_type)),
         t' ++ [Log ERROR ("Error generating scale: Unsupported scale type: " +:+ scale_type)])).
Proof.
  intros Hp o.
  unfold Utils.Scale__init__, Utils._generate_scale.
  rewrite bind_unfold, try_unfold, bind_unfold, Hp.
  repeat split.
  - intros ->. reflexivity.
  - intros ->. reflexivity.
  - intros H1%String.eqb_neq H2%String.eqb_neq. rewrite H1, H2. reflexivity.
Qed.

Lemma scale_notes_witness :
  Utils.parse_note "C4" [] = (OK (Utils.mkNote "C" (Some "") 4), []) /\
  Utils.get_notes <$> (Utils.Scale__init__ "C4" "Minor" []).1 =
    OK [ Utils.mkNote "C" (Some "") 4; Utils.mkNote "D" None 4; Utils.mkNote "F" None 4;
         Utils.mkNote "G" None 4; Utils.mkNote "A" None 4; Utils.mkNote "B" None 4;
         Utils.mkNote "C" None 5 ].
Proof.
  split; [reflexivity|].
  rewrite (proj1 (proj2 (scale_notes "C4" "Minor" _ [] [] eq_refl)) eq_refl).
  reflexivity.
Defined.

(** * Facts about [src/services.py] *)

(** The two elements of an encoding are the [float32] of 1 and of 0. *)
Lemma float32_one_zero : Services.float32 1 = OK one32 /\ Services.float32 0 = OK zero32.
Proof. split; reflexivity. Qed.

Lemma chord_map_outside chord :
  position chord vocabulary = None -> Services.chord_map !! chord = None.
Proof.
  unfold vocabulary; simpl. intros H.
  repeat match type of H with
         | context [String.eqb chord ?s] =>
             destruct (String.eqb_spec chord s); [discriminate H|]
         end.
  unfold Services.chord_map. rewrite !lookup_insert_ne by congruence. apply lookup_empty.
Qed.

(** The value of the chord encoder on every string. *)
Lemma chord_to_vector_value chord :
  Services._chord_to_vector chord =
  OK (Services.mkArray [7%nat]
        (match position chord vocabulary with
         | Some i => one_hot 7 i
         | None => zeros 7
         end)).
Proof.
  destruct (position chord vocabulary) as [i|] eqn:Hpos.
  - unfold vocabulary in Hpos; simpl in Hpos.
    repeat match type of Hpos with
           | context [String.eqb chord ?s] =>
               destruct (String.eqb_spec chord s); [subst chord; injection Hpos as <-; reflexivity|]
           end.
    discriminate Hpos.
  - unfold Services._chord_to_vector. rewrite (chord_map_outside chord Hpos). reflexivity.
Qed.

(** C3: the chord encoder is total: on every string it returns a vector of
    seven elements; for a member of the vocabulary Cmaj7, G7, Am7, D7, Em7,
    A7, Fmaj7 the vector has its single 1 at the member's position in that
    order, and for any other string it is the all-zero vector. *)
Theorem chord_to_vector_total (chord : string) :
  Services._chord_to_vector chord =
    OK (Services.mkArray [7%nat]
          (match position chord vocabulary with
           | Some i => one_hot 7 i
           | None => zeros 7
           end))
  /\ (position chord vocabulary = None <-> ~ In chord vocabulary)
  /\ (forall i, position chord vocabulary = Some i <-> nth_error vocabulary i = Some chord).
Proof.
  split; [apply chord_to_vector_value|]. split.
  - unfold vocabulary; simpl.
    repeat (case_eqb chord; [subst chord; split; [discriminate | intros H; exfalso; apply H; auto 10]|]).
    split; [|reflexivity]. intros _ H.
    repeat (destruct H as [<-|H]; [congruence|]). exact H.
  - intros i. unfold vocabulary; simpl.
    repeat (case_eqb chord;
            [subst chord; do 7 (destruct i as [|i]; [simpl; split; congruence|]);
             destruct i; simpl; split; congruence|]).
    do 7 (destruct i as [|i]; [simpl; split; congruence|]).
    destruct i; simpl; split; congruence.
Qed.

(** ** Validation of a harmony request *)

Lemma validate_input_cases input_data :
  (request_invalid input_data = false /\ Services._validate_input input_data = OK true)
  \/ (request_invalid input_data = true /\
      exists msg,
        Services._validate_input input_data = Raise (Exn ValueError msg)
        /\ In msg [ "Melody must contain at least 5 notes";
                    "At least 2 chords are required";
                    "Tempo must be between 40 and 240 BPM" ]).
Proof.
  destruct input_data as [melody chords tempo].
  unfold request_invalid, Services._validate_input; simpl.
  assert (Hm : bool_decide (melody = []) || (Z.of_nat (length melody) <? 5)%Z
               = (length melody <? 5)%nat).
  { destruct melody as [|note melody']; [reflexivity|]. simpl bool_decide. rewrite orb_false_l.
    destruct (Z.ltb_spec (Z.of_nat (length (note :: melody'))) 5),
             (Nat.ltb_spec (length (note :: melody')) 5); auto; lia. }
  assert (Hc : bool_decide (chords = []) || (Z.of_nat (length chords) <? 2)%Z
               = (length chords <? 2)%nat).
  { destruct chords as [|chord chords']; [reflexivity|]. simpl bool_decide. rewrite orb_false_l.
    destruct (Z.ltb_spec (Z.of_nat (length (chord :: chords'))) 2),
             (Nat.ltb_spec (length (chord :: chords')) 2); auto; lia. }
  rewrite Hm, Hc, Z.gtb_ltb.
  destruct (length melody <? 5)%nat; [right; split; [reflexivity|]; eexists; split; [reflexivity|simpl; auto]|].
  destruct (length chords <? 2)%nat; [right; split; [reflexivity|]; eexists; split; [reflexivity|simpl; auto]|].
  destruct (tempo <? 40)%Z; [right; split; [reflexivity|]; eexists; split; [reflexivity|simpl; auto]|].
  destruct (240 <? tempo)%Z; [right; split; [reflexivity|]; eexists; split; [reflexivity|simpl; auto]|].
  left. split; reflexivity.
Qed.

(** A request that validation rejects leaves [generate_harmony] after the
    call of [_validate_input]: the only other event is the error record. *)
Lemma generate_harmony_rejected str_MusicInput self input_data e t :
  Services._validate_input input_data = Raise e ->
  Services.generate_harmony str_MusicInput self input_data t =
  (Raise e, t ++ [Enter "_validate_input"; Log ERROR ("Error generating harmony: " +:+ exn_str e)]).
Proof.
  intros H. unfold Services.generate_harmony.
  rewrite try_unfold, bind_unfold. unfold observed at 1. rewrite bind_unfold.
  unfold emit at 1, lift at 1. rewrite H, log_then_raise, <- app_assoc. reflexivity.
Qed.

(** C1: validation of a harmony request fails, with a [ValueError] carrying
    one of three descriptive messages, exactly when the melody has fewer
    than 5 entries, or there are fewer than 2 chords, or the tempo is below
    40 or above 240; and a request that fails validation is rejected before
    any encoding: [generate_harmony] re-raises the error having entered
    neither [_process_input] nor [_chord_to_vector]. *)
Theorem validation_precedes_encoding
    (str_MusicInput : Services.MusicInput -> string) (self : Services.MusicService)
    (input_data : Services.MusicInput) :
  is_ok (Services._validate_input input_data) = negb (request_invalid input_data)
  /\ match Services._validate_input input_data with
     | OK b => b = true
     | Raise e =>
         exn_cls e = ValueError
         /\ In (exn_str e) [ "Melody must contain at least 5 notes";
                             "At least 2 chords are required";
                             "Tempo must be between 40 and 240 BPM" ]
         /\ forall t,
              Services.generate_harmony str_MusicInput self input_data t =
              (Raise e,
               t ++ [Enter "_validate_input";
                     Log ERROR ("Error generating harmony: " +:+ exn_str e)])
     end.
Proof.
  destruct (validate_input_cases input_data) as [[Hi Hv] | [Hi (msg & Hv & Hmsg)]];
    rewrite Hi, Hv; simpl; split; try reflexivity.
  repeat split; [exact Hmsg|]. intros t.
  now apply generate_harmony_rejected.
Qed.

(** ** Encoding of a harmony request *)

Lemma np_array_shape l a : Services.np_array l = OK a -> Services.shape a = [length l].
Proof.
  unfold Services.np_array. destruct (comprehension Services.float32 l); simpl; [|discriminate].
  now intros [= <-].
Qed.

(** The chords of a request are all encoded, each as an array of shape
    [(7,)]. *)
Lemma encode_chords_run chords t :
  exists vs,
    comprehensionM
      (fun chord => observed "_chord_to_vector" (lift (Services._chord_to_vector chord)))
      chords t
    = (OK vs, t ++ replicate (length chords) (Enter "_chord_to_vector"))
    /\ length vs = length chords
    /\ Forall (fun v => Services.shape v = [7%nat]) vs.
Proof.
  revert t; induction chords as [|chord chords IH]; intros t.
  - exists []. simpl. rewrite app_nil_r. repeat split. constructor.
  - destruct (IH (t ++ [Enter "_chord_to_vector"])) as (vs & Hrun & Hlen & Hsh).
    eexists (_ :: vs). cbn [comprehensionM].
    rewrite bind_unfold. unfold observed at 1. rewrite bind_unfold.
    unfold emit at 1, lift at 1. rewrite chord_to_vector_value.
    rewrite bind_unfold, Hrun. simpl. rewrite <- app_assoc.
    repeat split; [now rewrite Hlen|]. constructor; [reflexivity | exact Hsh].
Qed.

(** Every request with at least one chord makes [_process_input] raise:
    the melody is one-dimensional and the stacked chord encodings are
    two-dimensional, which [np.concatenate] refuses. *)
Lemma process_input_raises input_data t :
  Services.chords input_data <> [] ->
  exists e t', Services._process_input input_data t = (Raise e, t').
Proof.
  intros Hne. unfold Services._process_input.
  rewrite bind_unfold. unfold lift at 1.
  destruct (Services.np_array (Services.melody input_data)) as [m|e] eqn:Hm; [|eauto].
  apply np_array_shape in Hm.
  rewrite bind_unfold.
  destruct (encode_chords_run (Services.chords input_data) t) as (vs & -> & Hlen & Hsh).
  rewrite bind_unfold. unfold lift at 1.
  destruct vs as [|v vs]; [destruct (Services.chords input_data); [congruence | discriminate]|].
  assert (Hall : forallb (fun r' => Services.shape_eqb (Services.shape r') (Services.shape v))
                   (v :: vs) = true).
  { apply forallb_forall. intros r Hr. unfold Services.shape_eqb. apply bool_decide_eq_true.
    rewrite Forall_forall in Hsh.
    rewrite (Hsh r), (Hsh v); auto; apply list_elem_of_In; auto. simpl; auto. }
  unfold Services.np_array_of_arrays. rewrite Hall. cbv beta iota.
  destruct (Services.np_array [Services.tempo input_data]) as [tp|e]; [|eauto].
  unfold lift, Services.np_concatenate. rewrite Hm. cbn [Services.concatenate_rest].
  unfold Services.ndim at 2. cbn [Services.shape]. 
  inversion Hsh as [|? ? Hv _]; subst. rewrite Hv, Hm. simpl. eauto.
Qed.

(** C2 fails on the specification's own example: the request passes
    validation, and [_process_input] raises instead of returning a vector
    of length 20. *)
Theorem process_input_example_raises (t : trace) :
  Services._validate_input example_request = OK true
  /\ Services._process_input example_request t =
     (Raise (Exn ValueError
               "all the input arrays must have same number of dimensions, but the array at index 0 has 1 dimension(s) and the array at index 1 has 2 dimension(s)"),
      t ++ [Enter "_chord_to_vector"; Enter "_chord_to_vector"]).
Proof.
  split; [reflexivity|].
  replace (t ++ [Enter "_chord_to_vector"; Enter "_chord_to_vector"])
    with ((t ++ [Enter "_chord_to_vector"]) ++ [Enter "_chord_to_vector"])
    by (now rewrite <- app_assoc).
  vm_compute. reflexivity.
Qed.

(** * Facts about [src/models.py] *)

(** On a token of the parser's pattern, the pattern of [validate_pitch]
    matches exactly when the pitch letter is upper case. *)
Lemma re_match_pitch_well_formed k :
  well_formed k -> Models.re_match_pitch (text k) = Models.is_letter_AG (letter k).
Proof.
  destruct k as [l a d]. unfold well_formed, text; simpl.
  intros (Hl & Ha & Hne & Hd).
  destruct (Models.is_letter_AG l); [|reflexivity].
  assert (Hspan := span_all_digits d Hd).
  destruct d as [|c d']; [congruence|].
  assert (Hc : is_digit c = true) by (simpl in Hd; now apply andb_prop in Hd).
  destruct Ha as [-> | [-> | ->]].
  - change ("" +:+ String c d') with (String c d'). cbv iota.
    rewrite (digit_not_sharp_flat c Hc). now rewrite Hspan.
  - change ("#" +:+ String c d') with (String "#" (String c d')). cbv iota.
    change (Utils.is_sharp_flat "#") with true. cbv iota. now rewrite Hspan.
  - change ("b" +:+ String c d') with (String "b" (String c d')). cbv iota.
    change (Utils.is_sharp_flat "b") with true. cbv iota. now rewrite Hspan.
Qed.

Section ModelsFacts.

Variable float_of_str : string -> option spec_float.
Variable render : string -> Models.errors -> string.

#[local] Abbreviation MusicNote_new := (Models.MusicNote_new float_of_str render).
#[local] Abbreviation float_type := (Models.float_type float_of_str).

(** The pitch field alone. *)
Lemma pitch_field_accepted kwargs :
  match Models.required "pitch"
          (fun v => Models.with_validator Models.PStr Models.as_str Models.validate_pitch
                      (Models.str_type v)) kwargs with
  | Models.Valid s => pitch_accepted kwargs = true /\ kwargs !! "pitch" = Some (Models.PStr s)
  | Models.Invalid _ => pitch_accepted kwargs = false
  end.
Proof.
  unfold Models.required, pitch_accepted.
  destruct (kwargs !! "pitch") as [[| | | |s| |]|]; try reflexivity.
  simpl. destruct (Models.re_match_pitch s); simpl; auto.
Qed.

Lemma required_lookup {A} name (check : Models.pyval -> Models.checked A) kwargs v a :
  kwargs !! name = Some v -> check v = Models.Valid a ->
  Models.required name check kwargs = Models.Valid a.
Proof. intros H1 H2. unfold Models.required. now rewrite H1, H2. Qed.

(** With a duration and a timing that their fields accept, construction
    succeeds exactly on an accepted pitch, and stores it. *)
Lemma music_note_new_pitch kwargs vd vt d tm :
  kwargs !! "duration" = Some vd -> float_type vd = Models.Valid d ->
  kwargs !! "timing" = Some vt -> float_type vt = Models.Valid tm ->
  match MusicNote_new (Models.PDict kwargs) with
  | OK n =>
      pitch_accepted kwargs = true
      /\ kwargs !! "pitch" = Some (Models.PStr (Models.pitch n))
      /\ Models.duration n = d /\ Models.timing n = tm
  | Raise e => pitch_accepted kwargs = false /\ exn_cls e = ValidationError
  end.
Proof.
  intros Hd1 Hd2 Ht1 Ht2.
  unfold Models.MusicNote_new, Models.construct, Models.MusicNote_fields.
  rewrite (required_lookup "duration" _ kwargs vd d Hd1 Hd2).
  rewrite (required_lookup "timing" _ kwargs vt tm Ht1 Ht2).
  pose proof (pitch_field_accepted kwargs) as Hp.
  destruct (Models.required "pitch" _ kwargs) as [s|errs]; simpl.
  - destruct Hp as [Hp1 Hp2]. auto.
  - auto.
Qed.

(** C7, amended: for keyword arguments whose duration and timing are
    present and accepted as floats, [MusicNote] construction succeeds when
    the pitch is a string that [re.match] accepts for [^[A-G][#b]?[0-9]+$],
    and fails with a [ValidationError] when the pitch is absent, is not a
    string, or is a string that the pattern rejects.  The check is
    case-sensitive: a token of the parser's pattern whose pitch letter is
    lower case is rejected here; [parse_note] accepts it when it has at most
    4300 digits, and raises as well when it has more. *)
Theorem music_note_pitch_check (kwargs : gmap string Models.pyval)
    (vd vt : Models.pyval) (d tm : spec_float) :
  kwargs !! "duration" = Some vd -> float_type vd = Models.Valid d ->
  kwargs !! "timing" = Some vt -> float_type vt = Models.Valid tm ->
  is_ok (MusicNote_new (Models.PDict kwargs)) = pitch_accepted kwargs
  /\ match MusicNote_new (Models.PDict kwargs) with
     | OK n => kwargs !! "pitch" = Some (Models.PStr (Models.pitch n))
     | Raise e => exn_cls e = ValidationError
     end
  /\ (forall k t,
        well_formed k -> Models.is_letter_AG (letter k) = false ->
        kwargs !! "pitch" = Some (Models.PStr (text k)) ->
        is_ok (MusicNote_new (Models.PDict kwargs)) = false
        /\ (short (digit_group k) -> is_ok (Utils.parse_note (text k) t).1 = true)
        /\ (~ short (digit_group k) -> is_ok (Utils.parse_note (text k) t).1 = false)).
Proof.
  intros Hd1 Hd2 Ht1 Ht2.
  pose proof (music_note_new_pitch kwargs vd vt d tm Hd1 Hd2 Ht1 Ht2) as H.
  assert (Hok : is_ok (MusicNote_new (Models.PDict kwargs)) = pitch_accepted kwargs).
  { destruct (MusicNote_new (Models.PDict kwargs)); simpl; [now destruct H | now destruct H]. }
  split; [exact Hok|]. split.
  - destruct (MusicNote_new (Models.PDict kwargs)); [now destruct H as (_ & ? & _) | now destruct H].
  - intros k t Hk Hlow Hp. split; [|split].
    + rewrite Hok. unfold pitch_accepted. rewrite Hp.
      now rewrite (re_match_pitch_well_formed k Hk).
    + intros Hs. now rewrite (parse_note_well_formed k t (conj Hk Hs)).
    + intros Hs. now rewrite (parse_note_long k t Hk Hs).
Qed.

End ModelsFacts.

Lemma music_note_pitch_check_witness :
  let kwargs : gmap string Models.pyval :=
    <["pitch" := Models.PStr "c4"]>
    (<["duration" := Models.PFloat (round64 1)]> (<["timing" := Models.PInt 0]> ∅)) in
  (kwargs !! "duration" = Some (Models.PFloat (round64 1))
   /\ kwargs !! "timing" = Some (Models.PInt 0))
  /\ is_ok (Models.MusicNote_new no_float_strings render_summary (Models.PDict kwargs)) = false
  /\ is_ok (Utils.parse_note "c4" []).1 = true.
Proof.
  intros kwargs. split; [split; reflexivity|].
  assert (Hk : well_formed (mkToken "c" "" "4")).
  { unfold well_formed; simpl. repeat split; auto; discriminate. }
  assert (Hs : short (digit_group (mkToken "c" "" "4"))).
  { unfold short, max_str_digits; simpl; lia. }
  destruct (proj2 (proj2 (music_note_pitch_check no_float_strings render_summary kwargs
                            (Models.PFloat (round64 1)) (Models.PInt 0) (round64 1) (round64 0)
                            eq_refl eq_refl eq_refl eq_refl))
              (mkToken "c" "" "4") [] Hk eq_refl eq_refl) as (Hnew & Hparse & _).
  split; [exact Hnew | exact (Hparse Hs)].
Defined.

(** C7, as stated, fails on the token of "c" and 4301 digits, given with a
    duration and a timing: its pitch letter is lower case and [MusicNote]
    construction fails, but [parse_note] does not accept it: it raises the
    [ValueError] of [int], which converts at most 4300 digits. *)
Lemma music_note_lower_case_long_token :
  let kwargs : gmap string Models.pyval :=
    <["pitch" := Models.PStr (text (long_token "c"))]>
    (<["duration" := Models.PFloat (round64 1)]> (<["timing" := Models.PInt 0]> ∅)) in
  Utils.re_match_note (text (long_token "c")) = Some ("c", "", ones 4301)
  /\ is_ok (Models.MusicNote_new no_float_strings render_summary (Models.PDict kwargs)) = false
  /\ (Utils.parse_note (text (long_token "c")) []).1 =
     Raise (Exn ValueError
              "Exceeds the limit (4300 digits) for integer string conversion: value has 4301 digits; use sys.set_int_max_str_digits() to increase the limit").
Proof.
  intros kwargs. destruct (long_token_well_formed "c" eq_refl) as [Hk Hs].
  split; [exact (re_match_note_well_formed _ Hk)|]. split.
  - vm_compute. reflexivity.
  - rewrite (parse_note_long _ [] Hk Hs).
    unfold long_token, digit_group. rewrite ones_length. reflexivity.
Qed.

(** The three fields of [MusicNote] are required: the keyword arguments
    [{pitch: "C4"}], whose pitch the pattern accepts, are rejected for the
    missing duration and timing. *)
Lemma music_note_needs_duration_and_timing :
  Models.validate_pitch (Models.PStr "C4") = OK (Models.PStr "C4")
  /\ Models.MusicNote_new no_float_strings render_summary
       (Models.PDict (<["pitch" := Models.PStr "C4"]> ∅))
     = Raise (Exn ValidationError "2 validation errors for MusicNote")
  /\ Models.MusicNote_fields no_float_strings (<["pitch" := Models.PStr "C4"]> ∅)
     = Models.Invalid [ ([Models.Field "duration"], Models.Missing);
                        ([Models.Field "timing"], Models.Missing) ].
Proof. repeat split; reflexivity. Qed.

(** ** Batch validation *)

Lemma first_error_none l :
  first_error l = None <-> Forall (fun r => is_ok r = true) l.
Proof.
  induction l as [|[[]|e] l IH]; simpl.
  - split; [constructor | reflexivity].
  - rewrite IH. split; [now constructor | now inversion 1].
  - split; [discriminate | inversion 1; discriminate].
Qed.

Lemma first_error_last l e : first_error (l ++ [Raise e]) <> None.
Proof. induction l as [|[[]|e'] l IH]; simpl; [discriminate | exact IH | discriminate]. Qed.

(** A comprehension stops at its first failing element, and that element's
    exception is the first error of the per-element steps. *)
Lemma comprehension_first_error {A B} (f : A -> result B) (l : list A) rest :
  match comprehension f l with
  | OK _ => first_error (map (fun v => void (f v)) l ++ rest) = first_error rest
  | Raise e => first_error (map (fun v => void (f v)) l ++ rest) = Some e
  end.
Proof.
  induction l as [|x l IH]; simpl; [reflexivity|].
  destruct (f x) as [y|e]; simpl; [|reflexivity].
  destruct (comprehension f l); simpl; exact IH.
Qed.

Lemma element_steps_first {A} (new : Models.pyval -> result A) value rest :
  match (l ← Models.iterate value; comprehension new l) with
  | OK _ => first_error (element_steps new value ++ rest) = first_error rest
  | Raise e => first_error (element_steps new value ++ rest) = Some e
  end.
Proof.
  unfold element_steps. destruct (Models.iterate value) as [l|e]; simpl; [|reflexivity].
  apply comprehension_first_error.
Qed.

Section BatchFacts.

Variable float_of_str : string -> option spec_float.
Variable render : string -> Models.errors -> string.

#[local] Abbreviation validate_music_data := (Models.validate_music_data float_of_str render).
#[local] Abbreviation validate_music_data_body :=
  (Models.validate_music_data_body float_of_str render).
#[local] Abbreviation RhythmicPattern_new := (Models.RhythmicPattern_new float_of_str render).
#[local] Abbreviation batch_steps := (steps float_of_str render).

(** The body of [validate_music_data] returns a record when no step fails,
    and otherwise raises the exception of the first failing step. *)
Lemma validate_body_first_error data :
  match first_error (batch_steps data) with
  | None => exists d, validate_music_data_body data = OK d
  | Some e => validate_music_data_body data = Raise e
  end.
Proof.
  unfold Models.validate_music_data_body, steps.
  set (rest2 := [void (RhythmicPattern_new (Models.get data "rhythm" (Models.PDict ∅)))]).
  set (rest1 := element_steps _ (Models.get data "chords" _) ++ rest2).
  pose proof (element_steps_first (Models.MusicNote_new float_of_str render)
                (Models.get data "notes" (Models.PList [])) rest1) as H1.
  destruct (l ← Models.iterate (Models.get data "notes" (Models.PList []));
            comprehension (Models.MusicNote_new float_of_str render) l) as [ns|e];
    rewrite H1; simpl; [|reflexivity].
  subst rest1.
  pose proof (element_steps_first (Models.ChordProgression_new float_of_str render)
                (Models.get data "chords" (Models.PList [])) rest2) as H2.
  destruct (l ← Models.iterate (Models.get data "chords" (Models.PList []));
            comprehension (Models.ChordProgression_new float_of_str render) l) as [cs|e];
    rewrite H2; simpl; [|reflexivity].
  subst rest2. simpl.
  destruct (RhythmicPattern_new (Models.get data "rhythm" (Models.PDict ∅))); simpl; eauto.
Qed.

(** All or nothing: [validate_music_data] returns a record when no step
    fails, and otherwise raises one [ValueError] that wraps the first
    error. *)
Lemma validate_music_data_first_error data t :
  match first_error (batch_steps data) with
  | None =>
      exists d, validate_music_data data t = (OK d, t ++ [Log INFO "Validating music data"])
  | Some e =>
      validate_music_data data t =
      (Raise (Exn ValueError ("Invalid music data: " +:+ exn_str e)),
       t ++ [Log INFO "Validating music data"; Log ERROR ("Validation error: " +:+ exn_str e)])
  end.
Proof.
  pose proof (validate_body_first_error data) as H.
  unfold Models.validate_music_data. rewrite bind_unfold.
  unfold logging_info at 1, emit at 1. rewrite try_unfold. unfold lift.
  destruct (first_error (batch_steps data)) as [e|].
  - rewrite H, log_then_raise, <- app_assoc. reflexivity.
  - destruct H as [d ->]. eauto.
Qed.

(** A rhythm whose tempo is -5 is rejected, whatever its beats. *)
Lemma rhythm_tempo_minus_five kwargs :
  kwargs !! "tempo" = Some (Models.PInt (-5)) ->
  is_ok (RhythmicPattern_new (Models.PDict kwargs)) = false.
Proof.
  intros H. unfold Models.RhythmicPattern_new, Models.construct, Models.RhythmicPattern_fields.
  unfold Models.required at 2. rewrite H.
  destruct (Models.required "beats" _ kwargs); reflexivity.
Qed.

(** Without keyword arguments no rhythm can be built: both fields are
    required. *)
Lemma rhythm_of_nothing :
  RhythmicPattern_new (Models.PDict ∅) =
  Raise (Exn ValidationError
           (render "RhythmicPattern"
              [ ([Models.Field "beats"], Models.Missing);
                ([Models.Field "tempo"], Models.Missing) ])).
Proof. reflexivity. Qed.

End BatchFacts.

Lemma steps_end_in_rhythm float_of_str render data e :
  Models.RhythmicPattern_new float_of_str render (Models.get data "rhythm" (Models.PDict ∅))
  = Raise e ->
  first_error (steps float_of_str render data) <> None.
Proof.
  intros H. unfold steps. rewrite H, app_assoc. apply first_error_last.
Qed.

Lemma validate_music_data_raises float_of_str render data t :
  first_error (steps float_of_str render data) <> None ->
  exists e,
    Models.validate_music_data float_of_str render data t =
    (Raise (Exn ValueError ("Invalid music data: " +:+ exn_str e)),
     t ++ [Log INFO "Validating music data"; Log ERROR ("Validation error: " +:+ exn_str e)]).
Proof.
  intros H. pose proof (validate_music_data_first_error float_of_str render data t) as Hv.
  destruct (first_error (steps float_of_str render data)) as [e|]; [eauto | congruence].
Qed.

(** C8: batch validation is all or nothing.  On the example batch (no
    notes, no chords, beats [1.0] and tempo 100) it returns empty note and
    chord collections and the rhythm record.  On every batch it either
    returns a record, when every sub-validation succeeds, or raises one
    [ValueError] whose message is "Invalid music data: " followed by the
    first error met, in the order notes, chords, rhythm.  In particular
    every batch whose rhythm has tempo -5 fails as a whole. *)
Theorem validate_music_data_all_or_nothing
    (float_of_str : string -> option spec_float) (render : string -> Models.errors -> string)
    (data : gmap string Models.pyval) (t : trace) :
  Models.validate_music_data float_of_str render example_data t
    = (OK example_result, t ++ [Log INFO "Validating music data"])
  /\ match first_error (steps float_of_str render data) with
     | None =>
         exists d, Models.validate_music_data float_of_str render data t
                   = (OK d, t ++ [Log INFO "Validating music data"])
     | Some e =>
         Models.validate_music_data float_of_str render data t =
         (Raise (Exn ValueError ("Invalid music data: " +:+ exn_str e)),
          t ++ [Log INFO "Validating music data";
                Log ERROR ("Validation error: " +:+ exn_str e)])
     end
  /\ (first_error (steps float_of_str render data) = None <->
      Forall (fun r => is_ok r = true) (steps float_of_str render data))
  /\ (forall kwargs,
        data !! "rhythm" = Some (Models.PDict kwargs) ->
        kwargs !! "tempo" = Some (Models.PInt (-5)) ->
        exists e,
          Models.validate_music_data float_of_str render data t =
          (Raise (Exn ValueError ("Invalid music data: " +:+ exn_str e)),
           t ++ [Log INFO "Validating music data";
                 Log ERROR ("Validation error: " +:+ exn_str e)])).
Proof.
  split; [reflexivity|]. split; [apply validate_music_data_first_error|].
  split; [apply first_error_none|].
  intros kwargs Hr Ht. apply validate_music_data_raises.
  pose proof (rhythm_tempo_minus_five float_of_str render kwargs Ht) as Hbad.
  destruct (Models.RhythmicPattern_new float_of_str render (Models.PDict kwargs)) as [r|e] eqn:He;
    [discriminate Hbad|].
  apply (steps_end_in_rhythm float_of_str render data e).
  unfold Models.get. now rewrite Hr.
Qed.

Lemma validate_music_data_all_or_nothing_witness :
  let note : Models.pyval :=
    Models.PDict (<["pitch" := Models.PStr "C4"]>
                  (<["duration" := Models.PInt 1]> (<["timing" := Models.PInt 0]> ∅))) in
  let rhythm : gmap string Models.pyval :=
    <["beats" := Models.PList [Models.PFloat (round64 1)]]>
    (<["tempo" := Models.PInt (-5)]> ∅) in
  let data : gmap string Models.pyval :=
    <["notes" := Models.PList [note]]> (<["rhythm" := Models.PDict rhythm]> ∅) in
  is_ok (Models.MusicNote_new no_float_strings render_summary note) = true
  /\ data !! "rhythm" = Some (Models.PDict rhythm)
  /\ rhythm !! "tempo" = Some (Models.PInt (-5))
  /\ exists e,
       Models.validate_music_data no_float_strings render_summary data [] =
       (Raise (Exn ValueError ("Invalid music data: " +:+ exn_str e)),
        [Log INFO "Validating music data"; Log ERROR ("Validation error: " +:+ exn_str e)]).
Proof.
  intros note rhythm data. repeat split; try reflexivity.
  exact (proj2 (proj2 (proj2 (validate_music_data_all_or_nothing
                                no_float_strings render_summary data [])))
           rhythm eq_refl eq_refl).
Defined.

(** C9 fails on the code: a batch without the rhythm key is never
    accepted.  The default [{}] of [data.get('rhythm', {})] lacks the two
    required fields of [RhythmicPattern], so the call raises whatever the
    notes and the chords are. *)
Theorem validate_music_data_without_rhythm
    (float_of_str : string -> option spec_float) (render : string -> Models.errors -> string)
    (data : gmap string Models.pyval) (t : trace) :
  data !! "rhythm" = None ->
  exists e,
    Models.validate_music_data float_of_str render data t =
    (Raise (Exn ValueError ("Invalid music data: " +:+ exn_str e)),
     t ++ [Log INFO "Validating music data"; Log ERROR ("Validation error: " +:+ exn_str e)]).
Proof.
  intros Hr. apply validate_music_data_raises.
  eapply steps_end_in_rhythm. unfold Models.get. rewrite Hr. apply rhythm_of_nothing.
Qed.

Lemma validate_music_data_without_rhythm_witness :
  let data : gmap string Models.pyval :=
    <["notes" := Models.PList []]> (<["chords" := Models.PList []]> ∅) in
  data !! "rhythm" = None
  /\ Models.validate_music_data no_float_strings render_summary data [] =
     (Raise (Exn ValueError "Invalid music data: 2 validation errors for RhythmicPattern"),
      [Log INFO "Validating music data";
       Log ERROR "Validation error: 2 validation errors for RhythmicPattern"])
  /\ exists e,
       Models.validate_music_data no_float_strings render_summary data [] =
       (Raise (Exn ValueError ("Invalid music data: " +:+ exn_str e)),
        [Log INFO "Validating music data"; Log ERROR ("Validation error: " +:+ exn_str e)]).
Proof.
  intros data. split; [reflexivity|]. split; [reflexivity|].
  exact (validate_music_data_without_rhythm no_float_strings render_summary data [] eq_refl).
Defined.

(** * Further properties of [src/utils.py] *)

(** X1: on a string of code points below 256, [parse_note] returns exactly
    for the well-formed tokens of at most 4300 digits, alone or followed by
    one newline.  A well-formed token of more digits raises the [ValueError]
    of [int] for the length of its digit group; every other string raises
    the [ValueError] "Invalid note format: <string>".  Either error is
    logged in one record, and the errors "Invalid pitch" and "Invalid
    accidental" are never raised. *)
Theorem parse_note_accepts_exactly (s : string) (t : trace) :
  (exists k,
     parsable k
     /\ (s = text k \/ s = text k +:+ String Utils.newline "")
     /\ Utils.parse_note s t = (OK (note_of k), t))
  \/ (exists k,
        well_formed k /\ ~ short (digit_group k)
        /\ (s = text k \/ s = text k +:+ String Utils.newline "")
        /\ Utils.parse_note s t =
           (Raise (int_limit_error (String.length (digit_group k))),
            t ++ [Log ERROR ("Error parsing note " +:+ s +:+ ": "
                             +:+ exn_str (int_limit_error (String.length (digit_group k))))]))
  \/ ((forall k, well_formed k -> s <> text k /\ s <> text k +:+ String Utils.newline "")
      /\ Utils.parse_note s t =
         (Raise (Exn ValueError ("Invalid note format: " +:+ s)),
          t ++ [Log ERROR ("Error parsing note " +:+ s +:+ ": Invalid note format: " +:+ s)])).
Proof.
  destruct (Utils.re_match_note s) as [[[g1 g2] g3]|] eqn:Hm.
  - destruct (re_match_note_inv s g1 g2 g3 Hm) as (k & Hk & Hs & _).
    destruct (short_cases (digit_group k)) as [Hshort | Hlong].
    + left. exists k. split; [now split|]. split; [exact Hs|]. apply parse_note_run.
      destruct Hs as [-> | ->]; [now apply parse_note_body_well_formed|].
      now apply parse_note_body_dollar.
    + right. left. exists k. split; [exact Hk|]. split; [exact Hlong|]. split; [exact Hs|].
      apply parse_note_run_raise.
      destruct Hs as [-> | ->]; [|now apply parse_note_body_long].
      rewrite <- (append_empty_r (text k)). now apply parse_note_body_long.
  - right. right. split.
    + intros k Hk. split; intros ->.
      * rewrite (re_match_note_well_formed k Hk) in Hm. discriminate Hm.
      * rewrite (re_match_note_dollar k (String Utils.newline "") Hk eq_refl) in Hm.
        discriminate Hm.
    + apply (parse_note_run_raise s (Exn ValueError ("Invalid note format: " +:+ s))).
      unfold Utils.parse_note_body. now rewrite Hm.
Qed.

(** X2: whatever the input string, a note that [parse_note] returns has a
    pitch of one upper-case letter A to G, an accidental that is "", "#" or
    "b" and a non-negative octave, and the call has logged nothing. *)
Theorem parse_note_result_invariant (s : string) (t t' : trace) (n : Utils.Note) :
  Utils.parse_note s t = (OK n, t') ->
  t' = t
  /\ (exists c, Utils.pitch n = String c "" /\ Models.is_letter_AG c = true)
  /\ (Utils.accidental n = Some "" \/ Utils.accidental n = Some "#"
      \/ Utils.accidental n = Some "b")
  /\ (0 <= Utils.octave n)%Z.
Proof.
  intros H. destruct (parse_note_run_inv s n t t' H) as [Hb ->]. split; [reflexivity|].
  destruct (parse_note_body_inv s n Hb) as (k & [(Hl & Ha & _ & Hd) _] & _ & ->). simpl.
  split; [eexists; split; [reflexivity | now apply upper_letter_AG]|].
  split; [destruct Ha as [-> | [-> | ->]]; auto|].
  now apply digits_acc_nonneg.
Qed.

Lemma parse_note_result_invariant_witness :
  Utils.parse_note "eb12" [] = (OK (Utils.mkNote "E" (Some "b") 12), [])
  /\ (0 <= Utils.octave (Utils.mkNote "E" (Some "b") 12))%Z.
Proof.
  split; [reflexivity|].
  exact (proj2 (proj2 (proj2 (parse_note_result_invariant "eb12" [] []
                                (Utils.mkNote "E" (Some "b") 12) eq_refl)))).
Defined.

(** ** Formatting a parsed note and parsing it again *)

Lemma strip_zeros_cons c c' d :
  strip_zeros (String c (String c' d)) =
  if Ascii.eqb c "0" then strip_zeros (String c' d) else String c (String c' d).
Proof. reflexivity. Qed.

Lemma strip_zeros_digits d :
  d <> "" -> all_digits d = true ->
  strip_zeros d <> "" /\ all_digits (strip_zeros d) = true
  /\ digits_value (strip_zeros d) = digits_value d.
Proof.
  induction d as [|c d IH]; [congruence|]. intros _ Hd.
  destruct d as [|c' d]; [repeat split; [discriminate | exact Hd]|].
  rewrite strip_zeros_cons. destruct (Ascii.eqb_spec c "0") as [-> | Hc].
  - destruct IH as (H1 & H2 & H3); [discriminate | simpl in Hd; exact Hd|].
    repeat split; [exact H1 | exact H2|]. rewrite H3. reflexivity.
  - repeat split; [discriminate | exact Hd].
Qed.

Lemma upper_letter_fixed c :
  Utils.is_letter_AGag c = true ->
  Utils.is_letter_AGag (upper_char c) = true /\ upper_char (upper_char c) = upper_char c.
Proof. destruct c as [[] [] [] [] [] [] [] []]; intros H; try discriminate H; split; reflexivity. Qed.

(** The token that [format_notes] writes for the note of a token. *)
Lemma canonical_well_formed k :
  parsable k ->
  parsable (mkToken (upper_char (letter k)) (acc_group k) (strip_zeros (digit_group k)))
  /\ text (mkToken (upper_char (letter k)) (acc_group k) (strip_zeros (digit_group k)))
     = canonical k
  /\ note_of (mkToken (upper_char (letter k)) (acc_group k) (strip_zeros (digit_group k)))
     = note_of k.
Proof.
  intros [(Hl & Ha & Hne & Hd) Hs].
  destruct (strip_zeros_digits _ Hne Hd) as (H1 & H2 & H3).
  destruct (upper_letter_fixed _ Hl) as [H4 H5].
  split; [split; [repeat split; assumption|]|].
  - pose proof (strip_zeros_length (digit_group k)) as Hlen.
    unfold short in *. cbn [digit_group]. lia.
  - split; [reflexivity|]. unfold note_of; simpl. now rewrite H3, H5.
Qed.

(** X3: a note that [parse_note] returned survives a round trip through
    [format_notes] and [parse_note]: formatting it alone and parsing the
    text gives the same note back, and nothing is logged. *)
Theorem parse_format_round_trip (s : string) (t t' : trace) (n : Utils.Note) :
  Utils.parse_note s t = (OK n, t') ->
  (formatted ← Utils.format_notes [n]; Utils.parse_note formatted) t' = (OK n, t').
Proof.
  intros H. destruct (parse_note_run_inv s n t t' H) as [Hb ->].
  destruct (parse_note_body_inv s n Hb) as (k & Hk & _ & ->).
  assert (Hf : comprehension Utils.format_note [note_of k] = OK [canonical k])
    by (apply (format_all_parsed [k]); constructor; [exact Hk | constructor]).
  rewrite bind_unfold, (format_notes_run [note_of k] [canonical k] t Hf).
  change (join " " [canonical k]) with (canonical k).
  destruct (canonical_well_formed k Hk) as (Hk' & <- & <-).
  apply parse_note_run. now apply parse_note_body_well_formed.
Qed.

Lemma parse_format_round_trip_witness :
  Utils.parse_note "c#04" [] = (OK (Utils.mkNote "C" (Some "#") 4), [])
  /\ (Utils.format_notes [Utils.mkNote "C" (Some "#") 4] []).1 = OK "C#4"
  /\ (formatted ← Utils.format_notes [Utils.mkNote "C" (Some "#") 4];
      Utils.parse_note formatted) [] = (OK (Utils.mkNote "C" (Some "#") 4), []).
Proof.
  split; [reflexivity|]. split; [reflexivity|].
  exact (parse_format_round_trip "c#04" [] [] (Utils.mkNote "C" (Some "#") 4) eq_refl).
Defined.

(** ** A scale whose root does not parse *)

(** X4: when the root is not accepted by the parser, building a [Scale]
    raises the parser's "Invalid note format" error whatever the scale type
    is (an unsupported scale type is not reported), and the error is logged
    twice: by [parse_note] and by [_generate_scale]. *)
Theorem scale_root_rejected (root scale_type : string) (t : trace) :
  Utils.re_match_note root = None ->
  Utils.Scale__init__ root scale_type t =
  (Raise (Exn ValueError ("Invalid note format: " +:+ root)),
   t ++ [ Log ERROR ("Error parsing note " +:+ root +:+ ": Invalid note format: " +:+ root);
          Log ERROR ("Error generating scale: Invalid note format: " +:+ root) ]).
Proof.
  intros Hm.
  assert (Hp := parse_note_run_raise root (Exn ValueError ("Invalid note format: " +:+ root)) t).
  unfold Utils.parse_note_body in Hp. rewrite Hm in Hp. specialize (Hp eq_refl).
  unfold Utils.Scale__init__, Utils._generate_scale.
  rewrite bind_unfold, try_unfold, bind_unfold, Hp, log_then_raise, <- app_assoc.
  reflexivity.
Qed.

Lemma scale_root_rejected_witness :
  Utils.re_match_note "H4" = None
  /\ Utils.Scale__init__ "H4" "lydian" [] =
     (Raise (Exn ValueError "Invalid note format: H4"),
      [ Log ERROR "Error parsing note H4: Invalid note format: H4";
        Log ERROR "Error generating scale: Invalid note format: H4" ]).
Proof.
  split; [reflexivity|]. exact (scale_root_rejected "H4" "lydian" [] eq_refl).
Defined.

(** * Further properties of [src/services.py] *)

(** X5: [_validate_input] reports the first violated bound in the order
    melody, chords, tempo: a short melody gives the melody message whatever
    the chords and the tempo are, and the tempo message appears only when
    the melody and the chords are long enough. *)
Theorem validate_input_first_violation (input_data : Services.MusicInput) :
  ((length (Services.melody input_data) < 5)%nat ->
   Services._validate_input input_data =
   Raise (Exn ValueError "Melody must contain at least 5 notes"))
  /\ ((5 <= length (Services.melody input_data))%nat ->
      (length (Services.chords input_data) < 2)%nat ->
      Services._validate_input input_data =
      Raise (Exn ValueError "At least 2 chords are required"))
  /\ ((5 <= length (Services.melody input_data))%nat ->
      (2 <= length (Services.chords input_data))%nat ->
      (Services.tempo input_data < 40 \/ 240 < Services.tempo input_data)%Z ->
      Services._validate_input input_data =
      Raise (Exn ValueError "Tempo must be between 40 and 240 BPM")).
Proof.
  destruct input_data as [melody chords tempo]. unfold Services._validate_input; simpl.
  assert (Hm : bool_decide (melody = []) || (Z.of_nat (length melody) <? 5)%Z
               = (length melody <? 5)%nat).
  { destruct melody as [|note melody']; [reflexivity|]. simpl bool_decide. rewrite orb_false_l.
    destruct (Z.ltb_spec (Z.of_nat (length (note :: melody'))) 5),
             (Nat.ltb_spec (length (note :: melody')) 5); auto; lia. }
  assert (Hc : bool_decide (chords = []) || (Z.of_nat (length chords) <? 2)%Z
               = (length chords <? 2)%nat).
  { destruct chords as [|chord chords']; [reflexivity|]. simpl bool_decide. rewrite orb_false_l.
    destruct (Z.ltb_spec (Z.of_nat (length (chord :: chords'))) 2),
             (Nat.ltb_spec (length (chord :: chords')) 2); auto; lia. }
  rewrite Hm, Hc, Z.gtb_ltb.
  destruct (Nat.ltb_spec (length melody) 5), (Nat.ltb_spec (length chords) 2),
           (Z.ltb_spec tempo 40), (Z.ltb_spec 240 tempo);
    repeat split; intros; try reflexivity; lia.
Qed.

Lemma validate_input_first_violation_witness :
  Nat.lt (length (Services.melody (Services.mkMusicInput [60; 62] [] 10))) 5
  /\ Services._validate_input (Services.mkMusicInput [60; 62] [] 10) =
     Raise (Exn ValueError "Melody must contain at least 5 notes").
Proof.
  assert (H : Nat.lt (length (Services.melody (Services.mkMusicInput [60; 62] [] 10))) 5)
    by (simpl; lia).
  split; [exact H|].
  exact (proj1 (validate_input_first_violation (Services.mkMusicInput [60; 62] [] 10)) H).
Defined.

(** ** Encoding a request without chords *)

(** X6: on a request without chords, whose melody values and tempo convert
    to [float32], [_process_input] returns the flat vector of the melody
    followed by the tempo, of length [len(melody) + 1], and calls the chord
    encoder not at all. *)
Theorem process_input_without_chords (input_data : Services.MusicInput) (t : trace)
    (m : list spec_float) (tp : spec_float) :
  Services.chords input_data = [] ->
  comprehension Services.float32 (Services.melody input_data) = OK m ->
  Services.float32 (Services.tempo input_data) = OK tp ->
  Services._process_input input_data t =
  (OK (Services.mkArray [(length (Services.melody input_data) + 1)%nat] (m ++ [tp])), t).
Proof.
  intros Hc Hm Ht. unfold Services._process_input, Services.np_array.
  rewrite Hc, Hm. simpl comprehension. rewrite Ht.
  rewrite bind_unfold. unfold lift at 1. cbn [mbind result_bind mret result_ret].
  rewrite bind_unfold. cbn [comprehensionM]. unfold mret at 1, M_ret at 1.
  rewrite bind_unfold. unfold lift at 1. cbn [Services.np_array_of_arrays].
  rewrite bind_unfold. unfold lift. cbn.
  replace (Services.shape_eqb [] []) with true by reflexivity.
  reflexivity.
Qed.

Lemma process_input_without_chords_witness :
  Services._process_input (Services.mkMusicInput [60; 64] [] 120) [] =
  (OK (Services.mkArray [3%nat]
         [ S754_finite false 15728640 (-18); S754_finite false 8388608 (-17);
           S754_finite false 15728640 (-17) ]), []).
Proof.
  exact (process_input_without_chords (Services.mkMusicInput [60; 64] [] 120) []
           [S754_finite false 15728640 (-18); S754_finite false 8388608 (-17)]
           (S754_finite false 15728640 (-17)) eq_refl eq_refl eq_refl).
Defined.

(** ** [generate_harmony] never reaches the model *)

(** The events of [_process_input] are entries of the chord encoder only,
    and with a chord in the request it raises. *)
Lemma process_input_raises_trace input_data t :
  Services.chords input_data <> [] ->
  exists e n,
    Services._process_input input_data t =
    (Raise e, t ++ replicate n (Enter "_chord_to_vector")).
Proof.
  intros Hne. unfold Services._process_input.
  rewrite bind_unfold. unfold lift at 1.
  destruct (Services.np_array (Services.melody input_data)) as [m|e] eqn:Hm;
    [|exists e, 0%nat; simpl; now rewrite app_nil_r].
  apply np_array_shape in Hm.
  rewrite bind_unfold.
  destruct (encode_chords_run (Services.chords input_data) t) as (vs & -> & Hlen & Hsh).
  rewrite bind_unfold. unfold lift at 1.
  destruct vs as [|v vs]; [destruct (Services.chords input_data); [congruence | discriminate]|].
  assert (Hall : forallb (fun r' => Services.shape_eqb (Services.shape r') (Services.shape v))
                   (v :: vs) = true).
  { apply forallb_forall. intros r Hr. unfold Services.shape_eqb. apply bool_decide_eq_true.
    rewrite Forall_forall in Hsh.
    rewrite (Hsh r), (Hsh v); auto; apply list_elem_of_In; auto. simpl; auto. }
  unfold Services.np_array_of_arrays. rewrite Hall. cbv beta iota.
  destruct (Services.np_array [Services.tempo input_data]) as [tp|e]; [|eauto].
  unfold lift, Services.np_concatenate. rewrite Hm. cbn [Services.concatenate_rest].
  unfold Services.ndim at 2. cbn [Services.shape].
  inversion Hsh as [|? ? Hv _]; subst. rewrite Hv, Hm. simpl. eauto.
Qed.

(** X7: [generate_harmony] never returns notes.  For every service and
    every request it raises, and it has entered neither the model's
    [predict] nor [_convert_to_notes]: a request is either rejected by
    validation or, having at least two chords, fails in [_process_input]. *)
Theorem generate_harmony_never_predicts
    (str_MusicInput : Services.MusicInput -> string) (self : Services.MusicService)
    (input_data : Services.MusicInput) (t : trace) :
  exists e events,
    Services.generate_harmony str_MusicInput self input_data t = (Raise e, t ++ events)
    /\ ~ In (Enter "predict") events
    /\ ~ In (Enter "_convert_to_notes") events
    /\ last events = Some (Log ERROR ("Error generating harmony: " +:+ exn_str e)).
Proof.
  destruct (validate_input_cases input_data) as [[Hi Hv] | [Hi (msg & Hv & _)]].
  - assert (Hne : Services.chords input_data <> []).
    { unfold request_invalid in Hi. apply orb_false_elim in Hi as [Hi _].
      apply orb_false_elim in Hi as [Hi _]. apply orb_false_elim in Hi as [_ Hi].
      apply Nat.ltb_ge in Hi. intros Hnil. rewrite Hnil in Hi. simpl in Hi. lia. }
    destruct (process_input_raises_trace input_data
                (t ++ [Enter "_validate_input"]
                   ++ [Log INFO ("Generating harmony with input: " +:+ str_MusicInput input_data)]
                   ++ [Enter "_process_input"]) Hne) as (e & n & Hp).
    exists e.
    exists ([Enter "_validate_input";
             Log INFO ("Generating harmony with input: " +:+ str_MusicInput input_data);
             Enter "_process_input"]
            ++ replicate n (Enter "_chord_to_vector")
            ++ [Log ERROR ("Error generating harmony: " +:+ exn_str e)]).
    split; [|split; [|split]].
    + unfold Services.generate_harmony.
      rewrite try_unfold, bind_unfold. unfold observed at 1. rewrite bind_unfold.
      unfold emit at 1, lift at 1. rewrite Hv. cbv beta iota.
      rewrite bind_unfold. unfold logging_info at 1, emit at 1. cbv beta iota.
      rewrite bind_unfold. unfold observed at 1. rewrite bind_unfold.
      unfold emit at 1. cbv beta iota.
      rewrite <- !app_assoc. rewrite Hp, log_then_raise.
      f_equal. now rewrite <- !app_assoc.
    + intros Hin. apply in_app_or in Hin as [Hin | Hin];
        [simpl in Hin; intuition discriminate|].
      apply in_app_or in Hin as [Hin | Hin]; [|simpl in Hin; intuition discriminate].
      apply list_elem_of_In, elem_of_replicate in Hin as [Hin _]. discriminate Hin.
    + intros Hin. apply in_app_or in Hin as [Hin | Hin];
        [simpl in Hin; intuition discriminate|].
      apply in_app_or in Hin as [Hin | Hin]; [|simpl in Hin; intuition discriminate].
      apply list_elem_of_In, elem_of_replicate in Hin as [Hin _]. discriminate Hin.
    + rewrite !app_assoc. apply last_snoc.
  - exists (Exn ValueError msg).
    exists [Enter "_validate_input"; Log ERROR ("Error generating harmony: " +:+ msg)].
    split; [now apply generate_harmony_rejected|].
    split; [simpl; intuition discriminate|]. split; [simpl; intuition discriminate|].
    reflexivity.
Qed.

(** ** Decoding a prediction *)





(** ** Encoding integers and decoding them *)

Lemma survive_from_spec fuel z n :
  survive_from z fuel = true -> (z <= n < z + Z.of_nat fuel)%Z -> survives_float32 n = true.
Proof.
  revert z; induction fuel as [|fuel IH]; intros z H Hn; [lia|].
  simpl in H. apply andb_prop in H as [H1 H2].
  destruct (Z.eq_dec n z) as [-> | Hne]; [exact H1|].
  apply (IH (z + 1)%Z H2). lia.
Qed.

Lemma survives_small n : (-1024 <= n <= 1024)%Z -> survives_float32 n = true.
Proof.
  intros Hn. apply (survive_from_spec 2049 (-1024)); [vm_compute; reflexivity | lia].
Qed.

(** X9: integers between -1024 and 1024, a range that holds the MIDI note
    values 0 to 127, are encoded and decoded without loss: the [float32]
    array that [np.array] builds from a list of them is turned back into
    the same list by [_convert_to_notes]. *)
Theorem encode_decode_round_trip (l : list Z) :
  Forall (fun n => (-1024 <= n <= 1024)%Z) l ->
  (a ← Services.np_array l; Services._convert_to_notes a) = OK l.
Proof.
  intros Hl. unfold Services.np_array, Services._convert_to_notes, Services.flatten.
  assert (H : exists fs, comprehension Services.float32 l = OK fs
                         /\ comprehension int_of_float fs = OK l).
  { induction Hl as [|n l Hn _ (fs & H1 & H2)]; [exists []; split; reflexivity|].
    pose proof (survives_small n Hn) as Hs. unfold survives_float32 in Hs.
    destruct (Services.float32 n) as [f|] eqn:Hf; [|discriminate Hs].
    destruct (int_of_float f) as [m|] eqn:Hm; [|discriminate Hs].
    apply Z.eqb_eq in Hs. subst m.
    exists (f :: fs). simpl. rewrite Hf, H1, Hm, H2. split; reflexivity. }
  destruct H as (fs & -> & H2). simpl. exact H2.
Qed.

Lemma encode_decode_round_trip_witness :
  (a ← Services.np_array [60; 0; 127; -3]; Services._convert_to_notes a) = OK [60; 0; 127; -3].
Proof.
  apply encode_decode_round_trip. repeat constructor; lia.
Defined.

(** ** The chord encoder on its vocabulary *)

(** X10: the encoding of a vocabulary member identifies it: a chord name
    whose vector equals that of a vocabulary member is that member, so two
    distinct members never share a vector and no string outside the
    vocabulary is encoded like a member. *)
Theorem chord_to_vector_identifies_member (c1 c2 : string) :
  In c1 vocabulary ->
  Services._chord_to_vector c1 = Services._chord_to_vector c2 ->
  c1 = c2.
Proof.
  intros Hin. rewrite (chord_to_vector_value c1), (chord_to_vector_value c2).
  unfold vocabulary in *. simpl in Hin.
  repeat (destruct Hin as [<- | Hin];
          [simpl position;
           repeat (case_eqb c2; [subst c2; first [reflexivity | intros H; discriminate H]|]);
           intros H; discriminate H|]).
  contradiction.
Qed.

Lemma chord_to_vector_identifies_member_witness :
  In "Em7" vocabulary /\ "Em7" = "Em7".
Proof.
  assert (H : In "Em7" vocabulary) by (unfold vocabulary; simpl; auto 10).
  split; [exact H|].
  exact (chord_to_vector_identifies_member "Em7" "Em7" H eq_refl).
Defined.

(** * Further properties of [src/models.py] *)

Section MoreModelsFacts.

Variable float_of_str : string -> option spec_float.
Variable render : string -> Models.errors -> string.

#[local] Abbreviation float_type := (Models.float_type float_of_str).
#[local] Abbreviation MusicNote_new := (Models.MusicNote_new float_of_str render).
#[local] Abbreviation ChordProgression_new := (Models.ChordProgression_new float_of_str render).
#[local] Abbreviation RhythmicPattern_new := (Models.RhythmicPattern_new float_of_str render).
#[local] Abbreviation validate_music_data := (Models.validate_music_data float_of_str render).

(** X11: with beats that are accepted, a [RhythmicPattern] is rejected
    exactly when its tempo, read as a float, compares [<= 0]; the only
    entry of the error is then "Tempo must be a positive number".  Since a
    NaN compares false, a NaN tempo is accepted. *)
Theorem rhythm_tempo_rule (kwargs : gmap string Models.pyval)
    (vb vt : Models.pyval) (bs : list spec_float) (f : spec_float) :
  kwargs !! "beats" = Some vb -> Models.list_type float_type vb = Models.Valid bs ->
  kwargs !! "tempo" = Some vt -> float_type vt = Models.Valid f ->
  RhythmicPattern_new (Models.PDict kwargs) =
    (if SFleb f (S754_zero false)
     then Raise (Exn ValidationError
                   (render "RhythmicPattern"
                      [([Models.Field "tempo"], Models.Raised "Tempo must be a positive number")]))
     else OK (Models.mkRhythmicPattern bs f))
  /\ (f = S754_nan -> RhythmicPattern_new (Models.PDict kwargs)
                      = OK (Models.mkRhythmicPattern bs S754_nan)).
Proof.
  intros Hb1 Hb2 Ht1 Ht2.
  assert (H : RhythmicPattern_new (Models.PDict kwargs) =
              if SFleb f (S754_zero false)
              then Raise (Exn ValidationError
                            (render "RhythmicPattern"
                               [([Models.Field "tempo"],
                                 Models.Raised "Tempo must be a positive number")]))
              else OK (Models.mkRhythmicPattern bs f)).
  { unfold Models.RhythmicPattern_new, Models.construct, Models.RhythmicPattern_fields.
    rewrite (required_lookup "beats" _ kwargs vb bs Hb1 Hb2).
    unfold Models.required. rewrite Ht1, Ht2.
    unfold Models.with_validator, Models.validate_tempo, Models.le_zero.
    cbn [mbind result_bind]. now destruct (SFleb f (S754_zero false)). }
  split; [exact H|]. intros ->. exact H.
Qed.

(** All items of a list field are checked, and the field is accepted
    exactly when every item is. *)
Lemma list_items_valid {A} (item : Models.pyval -> Models.checked A) (i : nat) l :
  match Models.list_items item i l with
  | Models.Valid r =>
      Forall2 (fun v a => item v = Models.Valid a) l r
  | Models.Invalid _ =>
      exists v, In v l /\ forall a, item v <> Models.Valid a
  end.
Proof.
  revert i; induction l as [|v l IH]; intros i; simpl; [constructor|].
  specialize (IH (S i)).
  destruct (item v) as [a|errs] eqn:Hv; simpl.
  - destruct (Models.list_items item (S i) l) as [r|errs'].
    + constructor; assumption.
    + destruct IH as (v' & Hin & Hv'). exists v'. split; [now right | exact Hv'].
  - exists v. split; [now left|]. intros a. rewrite Hv. discriminate.
Qed.

Lemma music_note_item_new v :
  match Models.MusicNote_item float_of_str v with
  | Models.Valid n => MusicNote_new v = OK n
  | Models.Invalid _ => is_ok (MusicNote_new v) = false
  end.
Proof.
  unfold Models.MusicNote_new, Models.construct, Models.MusicNote_item.
  destruct v; try reflexivity.
  now destruct (Models.MusicNote_fields float_of_str d).
Qed.

Lemma key_field_accepted kwargs :
  match Models.required "key"
          (fun v => Models.with_validator Models.PStr Models.as_str Models.validate_key
                      (Models.str_type v)) kwargs with
  | Models.Valid s => key_accepted kwargs = true /\ kwargs !! "key" = Some (Models.PStr s)
  | Models.Invalid _ => key_accepted kwargs = false
  end.
Proof.
  unfold Models.required, key_accepted.
  destruct (kwargs !! "key") as [[| | | |s| |]|]; try reflexivity.
  simpl. destruct (String.eqb (strip s) ""); simpl; auto.
Qed.

Lemma notes_field_accepted kwargs :
  match Models.required "notes"
          (Models.list_type (Models.MusicNote_item float_of_str)) kwargs with
  | Models.Valid ns =>
      notes_accepted float_of_str render kwargs = true
      /\ exists l, kwargs !! "notes" = Some (Models.PList l)
                   /\ Forall2 (fun v n => MusicNote_new v = OK n) l ns
  | Models.Invalid _ => notes_accepted float_of_str render kwargs = false
  end.
Proof.
  unfold Models.required, notes_accepted.
  destruct (kwargs !! "notes") as [[| | | | |l|]|]; try reflexivity.
  simpl Models.list_type.
  pose proof (list_items_valid (Models.MusicNote_item float_of_str) 0 l) as Hl.
  destruct (Models.list_items (Models.MusicNote_item float_of_str) 0 l) as [ns|errs]; simpl.
  - assert (Hns : Forall2 (fun v n => MusicNote_new v = OK n) l ns).
    { eapply Forall2_impl; [exact Hl|]. intros v n Hv.
      pose proof (music_note_item_new v) as H. now rewrite Hv in H. }
    split; [|eauto].
    clear -Hns. induction Hns as [|v n l ns Hv _ IH]; [reflexivity|].
    simpl. now rewrite Hv, IH.
  - destruct Hl as (v & Hin & Hv).
    apply not_true_is_false. intros Hall. rewrite forallb_forall in Hall.
    specialize (Hall v Hin). pose proof (music_note_item_new v) as H.
    destruct (Models.MusicNote_item float_of_str v) as [n|]; [now apply (Hv n)|].
    rewrite H in Hall. discriminate.
Qed.

(** X12: a [ChordProgression] is accepted exactly when its [notes] are a
    list whose every item [MusicNote] accepts and its [key] is a string
    that is not blank; the accepted record holds the key as given and the
    notes in the order given. *)
Theorem chord_progression_accepted (kwargs : gmap string Models.pyval) :
  is_ok (ChordProgression_new (Models.PDict kwargs))
  = notes_accepted float_of_str render kwargs && key_accepted kwargs
  /\ match ChordProgression_new (Models.PDict kwargs) with
     | OK c =>
         kwargs !! "key" = Some (Models.PStr (Models.key c))
         /\ exists l, kwargs !! "notes" = Some (Models.PList l)
                      /\ Forall2 (fun v n => MusicNote_new v = OK n) l (Models.notes c)
     | Raise e => exn_cls e = ValidationError
     end.
Proof.
  unfold Models.ChordProgression_new, Models.construct, Models.ChordProgression_fields.
  pose proof (key_field_accepted kwargs) as Hk.
  pose proof (notes_field_accepted kwargs) as Hn.
  destruct (Models.required "notes" _ kwargs) as [ns|errs1];
    destruct (Models.required "key" _ kwargs) as [s|errs2]; simpl.
  - destruct Hk as [-> Hk], Hn as [-> Hn]. auto.
  - destruct Hn as [-> _]. rewrite Hk. auto.
  - rewrite Hn. auto.
  - rewrite Hn. auto.
Qed.

End MoreModelsFacts.

Lemma rhythm_tempo_rule_witness :
  let kwargs : gmap string Models.pyval :=
    <["beats" := Models.PList [Models.PInt 1; Models.PFloat (round64 2)]]>
    (<["tempo" := Models.PFloat S754_nan]> ∅) in
  Models.RhythmicPattern_new no_float_strings render_summary (Models.PDict kwargs)
  = OK (Models.mkRhythmicPattern [round64 1; round64 2] S754_nan).
Proof.
  intros kwargs.
  exact (proj1 (rhythm_tempo_rule no_float_strings render_summary kwargs
                  (Models.PList [Models.PInt 1; Models.PFloat (round64 2)])
                  (Models.PFloat S754_nan) [round64 1; round64 2] S754_nan
                  eq_refl eq_refl eq_refl eq_refl)).
Defined.

(** ** What a successful batch validation returns *)

Lemma comprehension_Forall2 {A B} (f : A -> result B) (l : list A) (r : list B) :
  comprehension f l = OK r -> Forall2 (fun x y => f x = OK y) l r.
Proof.
  revert r; induction l as [|x l IH]; simpl; intros r; [intros [= <-]; constructor|].
  destruct (f x) as [y|] eqn:Hx; simpl; [|discriminate].
  destruct (comprehension f l) as [r'|]; simpl; [|discriminate].
  intros [= <-]. constructor; [exact Hx | now apply IH].
Qed.

Lemma validate_music_data_ok_inv float_of_str render data t d t' :
  Models.validate_music_data float_of_str render data t = (OK d, t') ->
  Models.validate_music_data_body float_of_str render data = OK d
  /\ t' = t ++ [Log INFO "Validating music data"].
Proof.
  unfold Models.validate_music_data. rewrite bind_unfold.
  unfold logging_info at 1, emit at 1. rewrite try_unfold. unfold lift.
  destruct (Models.validate_music_data_body float_of_str render data) as [d'|e].
  - now intros [= <- <-].
  - rewrite log_then_raise. discriminate.
Qed.

(** A note, a chord progression and a rhythm that their models return
    obey the rules of the validators. *)
Lemma music_note_new_valid float_of_str render v n :
  Models.MusicNote_new float_of_str render v = OK n ->
  note_valid n = true
  /\ exists kwargs, v = Models.PDict kwargs
                    /\ kwargs !! "pitch" = Some (Models.PStr (Models.pitch n)).
Proof.
  unfold Models.MusicNote_new, Models.construct. destruct v as [| | | | | |kwargs]; try discriminate.
  unfold Models.MusicNote_fields. pose proof (pitch_field_accepted kwargs) as Hp.
  destruct (Models.required "pitch" _ kwargs) as [p|]; [|discriminate].
  destruct (Models.required "duration" _ kwargs); [|discriminate].
  destruct (Models.required "timing" _ kwargs); [|discriminate].
  intros [= <-]. destruct Hp as [Hacc Hp]. unfold note_valid. cbn [Models.pitch].
  unfold pitch_accepted in Hacc. rewrite Hp in Hacc. split; [exact Hacc|]. eauto.
Qed.

Lemma music_notes_new_valid float_of_str render l ns :
  Forall2 (fun v n => Models.MusicNote_new float_of_str render v = OK n) l ns ->
  forallb note_valid ns = true.
Proof.
  induction 1 as [|v n l ns Hv _ IH]; [reflexivity|]. simpl.
  now rewrite (proj1 (music_note_new_valid _ _ v n Hv)), IH.
Qed.

Lemma chord_progression_new_valid float_of_str render v c :
  Models.ChordProgression_new float_of_str render v = OK c -> chord_valid c = true.
Proof.
  unfold Models.ChordProgression_new, Models.construct.
  destruct v as [| | | | | |kwargs]; try discriminate.
  unfold Models.ChordProgression_fields.
  pose proof (key_field_accepted kwargs) as Hk.
  pose proof (notes_field_accepted float_of_str render kwargs) as Hn.
  destruct (Models.required "notes" _ kwargs) as [ns|]; [|discriminate].
  destruct (Models.required "key" _ kwargs) as [k|]; [|discriminate].
  intros [= <-]. destruct Hk as [Hacc Hk], Hn as (_ & l & _ & Hl).
  unfold chord_valid. cbn [Models.notes Models.key].
  rewrite (music_notes_new_valid _ _ l ns Hl).
  unfold key_accepted in Hacc. rewrite Hk in Hacc. exact Hacc.
Qed.

Lemma chord_progressions_new_valid float_of_str render l cs :
  Forall2 (fun v c => Models.ChordProgression_new float_of_str render v = OK c) l cs ->
  forallb chord_valid cs = true.
Proof.
  induction 1 as [|v c l cs Hv _ IH]; [reflexivity|]. simpl.
  now rewrite (chord_progression_new_valid _ _ v c Hv), IH.
Qed.

Lemma rhythmic_pattern_new_valid float_of_str render v r :
  Models.RhythmicPattern_new float_of_str render v = OK r ->
  rhythm_valid r = true /\ exists kwargs, v = Models.PDict kwargs /\ kwargs <> ∅.
Proof.
  unfold Models.RhythmicPattern_new, Models.construct.
  destruct v as [| | | | | |kwargs]; try discriminate.
  unfold Models.RhythmicPattern_fields.
  destruct (Models.required "beats" _ kwargs) as [bs|] eqn:Hb; [|discriminate].
  unfold Models.required at 1.
  destruct (kwargs !! "tempo") as [vt|] eqn:Ht; [|discriminate].
  destruct (Models.float_type float_of_str vt) as [f|]; [|discriminate].
  unfold Models.with_validator, Models.validate_tempo, Models.le_zero.
  cbn [mbind result_bind].
  destruct (SFleb f (S754_zero false)) eqn:Hf; [discriminate|].
  cbn [Models.as_float Models.at_loc]. intros [= <-]. split.
  - unfold rhythm_valid. cbn [Models.tempo]. now rewrite Hf.
  - exists kwargs. split; [reflexivity|]. intros ->. discriminate Ht.
Qed.

(** What the comprehension over a key of the batch returns: for a list, one
    result per item, in order; for an absent key, nothing. *)
Lemma batch_items_ok {A} (new : Models.pyval -> result A) data name r :
  (l ← Models.iterate (Models.get data name (Models.PList [])); comprehension new l) = OK r ->
  (exists l, Models.iterate (Models.get data name (Models.PList [])) = OK l
             /\ Forall2 (fun v a => new v = OK a) l r)
  /\ (forall l, data !! name = Some (Models.PList l) -> Forall2 (fun v a => new v = OK a) l r)
  /\ (data !! name = None -> r = []).
Proof.
  intros H.
  destruct (Models.iterate (Models.get data name (Models.PList []))) as [items|] eqn:Hi;
    simpl in H; [|discriminate H].
  apply comprehension_Forall2 in H. split; [eauto|]. split.
  - intros l Hl. unfold Models.get in Hi. rewrite Hl in Hi. simpl in Hi.
    injection Hi as <-. exact H.
  - intros Hnone. unfold Models.get in Hi. rewrite Hnone in Hi. simpl in Hi.
    injection Hi as <-. now inversion H.
Qed.

(** X13: the batch that [validate_music_data] returns obeys every rule of
    the validators: each note's pitch, also inside the chord progressions,
    matches the pattern, each key is not blank and the tempo does not
    compare [<= 0].  Its notes and chord progressions are those built from
    the items of the lists under [notes] and [chords], one per item and in
    the input's order (none for an absent key); its rhythm is built from the
    dictionary under [rhythm], which is present; and the only log record is
    "Validating music data". *)
Theorem validate_music_data_pointwise
    (float_of_str : string -> option spec_float) (render : string -> Models.errors -> string)
    (data : gmap string Models.pyval) (t t' : trace) (d : Models.MusicData) :
  Models.validate_music_data float_of_str render data t = (OK d, t') ->
  t' = t ++ [Log INFO "Validating music data"]
  /\ batch_valid d = true
  /\ (forall l, data !! "notes" = Some (Models.PList l) ->
        Forall2 (fun v n => Models.MusicNote_new float_of_str render v = OK n)
          l (Models.data_notes d))
  /\ (data !! "notes" = None -> Models.data_notes d = [])
  /\ (forall l, data !! "chords" = Some (Models.PList l) ->
        Forall2 (fun v c => Models.ChordProgression_new float_of_str render v = OK c)
          l (Models.data_chords d))
  /\ (data !! "chords" = None -> Models.data_chords d = [])
  /\ (exists kwargs,
        data !! "rhythm" = Some (Models.PDict kwargs)
        /\ Models.RhythmicPattern_new float_of_str render (Models.PDict kwargs)
           = OK (Models.data_rhythm d)).
Proof.
  intros H. apply validate_music_data_ok_inv in H as [Hb ->]. split; [reflexivity|].
  unfold Models.validate_music_data_body in Hb.
  destruct (l ← Models.iterate (Models.get data "notes" (Models.PList []));
            comprehension (Models.MusicNote_new float_of_str render) l) as [ns|] eqn:Hn;
    simpl in Hb; [|discriminate Hb].
  destruct (l ← Models.iterate (Models.get data "chords" (Models.PList []));
            comprehension (Models.ChordProgression_new float_of_str render) l) as [cs|] eqn:Hc;
    simpl in Hb; [|discriminate Hb].
  destruct (Models.RhythmicPattern_new float_of_str render _) as [r|] eqn:Hr;
    simpl in Hb; [|discriminate Hb].
  injection Hb as <-. cbn [Models.data_notes Models.data_chords Models.data_rhythm].
  destruct (batch_items_ok _ data "notes" ns Hn) as ((ln & _ & Hln) & Hn1 & Hn2).
  destruct (batch_items_ok _ data "chords" cs Hc) as ((lc & _ & Hlc) & Hc1 & Hc2).
  destruct (rhythmic_pattern_new_valid _ _ _ r Hr) as (Hvalid & kwargs & Hk & Hne).
  split.
  { unfold batch_valid. cbn [Models.data_notes Models.data_chords Models.data_rhythm].
    now rewrite (music_notes_new_valid _ _ ln ns Hln),
      (chord_progressions_new_valid _ _ lc cs Hlc), Hvalid. }
  split; [exact Hn1|]. split; [exact Hn2|]. split; [exact Hc1|]. split; [exact Hc2|].
  exists kwargs. unfold Models.get in Hk, Hr.
  destruct (data !! "rhythm") as [v|]; [|now injection Hk as <-].
  subst v. split; [reflexivity | exact Hr].
Qed.

Lemma validate_music_data_pointwise_witness :
  Models.validate_music_data no_float_strings render_summary song_data []
  = (OK song_result, [Log INFO "Validating music data"])
  /\ batch_valid song_result = true
  /\ Forall2 (fun v n => Models.MusicNote_new no_float_strings render_summary v = OK n)
       [note_kwargs "C4" 0] (Models.data_notes song_result).
Proof.
  assert (H : Models.validate_music_data no_float_strings render_summary song_data []
              = (OK song_result, [] ++ [Log INFO "Validating music data"]))
    by (vm_compute; reflexivity).
  split; [exact H|].
  destruct (validate_music_data_pointwise no_float_strings render_summary
              song_data [] _ song_result H) as (_ & Hvalid & Hnotes & _).
  split; [exact Hvalid|]. apply Hnotes. reflexivity.
Defined.

(** ** Notes that cannot be iterated *)

(** X14: when the value under [notes] is [None], a [bool], an [int] or a
    [float], [validate_music_data] fails whatever the rest of the batch is:
    the [TypeError] of the iteration is wrapped as "Invalid music data:
    '<type>' object is not iterable" and logged. *)
Theorem validate_music_data_notes_not_iterable
    (float_of_str : string -> option spec_float) (render : string -> Models.errors -> string)
    (data : gmap string Models.pyval) (v : Models.pyval) (t : trace) :
  data !! "notes" = Some v ->
  (v = Models.PNone \/ (exists b, v = Models.PBool b) \/ (exists n, v = Models.PInt n)
   \/ (exists f, v = Models.PFloat f)) ->
  Models.validate_music_data float_of_str render data t =
  (Raise (Exn ValueError
            ("Invalid music data: '" +:+ Models.type_name v +:+ "' object is not iterable")),
   t ++ [ Log INFO "Validating music data";
          Log ERROR ("Validation error: '" +:+ Models.type_name v
                     +:+ "' object is not iterable") ]).
Proof.
  intros Hn Hv.
  pose proof (validate_music_data_first_error float_of_str render data t) as H.
  assert (Hfirst : first_error (steps float_of_str render data)
                   = Some (Exn TypeError ("'" +:+ Models.type_name v
                                          +:+ "' object is not iterable"))).
  { unfold steps, element_steps at 1, Models.get at 1. rewrite Hn.
    destruct Hv as [-> | [[b ->] | [[n ->] | [f ->]]]]; reflexivity. }
  rewrite Hfirst in H. exact H.
Qed.

Lemma validate_music_data_notes_not_iterable_witness :
  Models.validate_music_data no_float_strings render_summary
    (<["notes" := Models.PInt 3]> example_data) [] =
  (Raise (Exn ValueError "Invalid music data: 'int' object is not iterable"),
   [ Log INFO "Validating music data";
     Log ERROR "Validation error: 'int' object is not iterable" ]).
Proof.
  exact (validate_music_data_notes_not_iterable no_float_strings render_summary
           (<["notes" := Models.PInt 3]> example_data) (Models.PInt 3) []
           eq_refl (or_intror (or_intror (or_introl (ex_intro _ 3%Z eq_refl))))).
Defined.

(** ** The table of notes *)

Lemma flat_map_lookup {A B} (F : A -> list B) (l : list A) :
  flat_map (fun j => match l !! j with Some x => F x | None => [] end) (seq 0 (length l))
  = flat_map F l.
Proof.
  induction l as [|x l IH]; [reflexivity|].
  cbn [length seq flat_map]. rewrite <- seq_shift, flat_map_concat_map, map_map.
  rewrite <- flat_map_concat_map. cbn [lookup list_lookup]. simpl. f_equal. exact IH.
Qed.

Lemma flat_map_agree {A B} (F G : A -> list B) (l : list A) :
  (forall x, In x l -> F x = G x) -> flat_map F l = flat_map G l.
Proof.
  induction l as [|x l IH]; intros H; [reflexivity|]. simpl.
  rewrite (H x) by now left. f_equal. apply IH. intros y Hy. apply H. now right.
Qed.

Lemma transpose_three_columns {A B} (f g h : A -> B) (l : list A) :
  Models.transpose_cells 3 (length l) (map f l ++ map g l ++ map h l)
  = flat_map (fun x => [f x; g x; h x]) l.
Proof.
  unfold Models.transpose_cells. rewrite <- (flat_map_lookup (fun x => [f x; g x; h x]) l).
  apply flat_map_agree. intros j Hj%in_seq. cbn [seq flat_map].
  assert (Hlt : (j < length l)%nat) by lia.
  destruct (lookup_lt_is_Some_2 l j Hlt) as [x Hx]. rewrite Hx.
  rewrite (lookup_app_l (map f l)) by (rewrite length_map; lia).
  rewrite (lookup_app_r (map f l)) by (rewrite length_map; lia).
  rewrite length_map.
  replace (1 * length l + j - length l)%nat with j by lia.
  rewrite (lookup_app_l (map g l)) by (rewrite length_map; lia).
  rewrite (lookup_app_r (map f l)) by (rewrite length_map; lia).
  rewrite length_map.
  rewrite (lookup_app_r (map g l)) by (rewrite length_map; lia).
  rewrite length_map.
  replace (2 * length l + j - length l - length l)%nat with j by lia.
  change (0 * length l + j)%nat with j.
  rewrite !list_lookup_fmap, Hx. reflexivity.
Qed.

(** X15: [notes_to_array] returns the empty array of shape [(0,)] for no
    notes, and otherwise an array of strings of shape [(len(notes), 3)]
    with one row per note, in order: the note's pitch, then the texts of
    its duration and of its timing.  It logs one record. *)
Theorem notes_to_array_rows (str_float : spec_float -> string)
    (notes : list Models.MusicNote) (t : trace) :
  Models.notes_to_array str_float notes t =
  (OK (match notes with
       | [] => Models.FloatArray [0%nat] []
       | _ =>
           Models.StrArray [length notes; 3%nat]
             (flat_map (fun n => [ Models.pitch n; str_float (Models.duration n);
                                   str_float (Models.timing n) ]) notes)
       end),
   t ++ [Log INFO "Converting notes to numpy array"]).
Proof.
  unfold Models.notes_to_array. rewrite bind_unfold.
  unfold logging_info at 1, emit at 1. cbv beta iota.
  destruct notes as [|n notes]; [reflexivity|].
  set (l := n :: notes).
  unfold Models.np_array_columns, Models.T. rewrite !map_map, length_map.
  rewrite (transpose_three_columns Models.pitch
             (fun x => str_float (Models.duration x)) (fun x => str_float (Models.timing x)) l).
  reflexivity.
Qed.

(** ** Blank keys *)

Lemma lstrip_empty s : lstrip s = "" <-> blank s = true.
Proof.
  induction s as [|c s IH]; simpl; [split; reflexivity|].
  destruct (is_space c); simpl; [exact IH | split; discriminate].
Qed.

Lemma lstrip_head s : match lstrip s with String c _ => is_space c = false | EmptyString => True end.
Proof.
  induction s as [|c s IH]; simpl; [exact I|].
  destruct (is_space c) eqn:Hc; [exact IH | exact Hc].
Qed.

Lemma rstrip_empty s : rstrip s = "" <-> blank s = true.
Proof.
  induction s as [|c s IH]; simpl; [split; reflexivity|].
  destruct (rstrip s) as [|c' r].
  - destruct (is_space c); simpl; [|split; discriminate].
    split; intros _; [now apply IH | reflexivity].
  - split; [discriminate|]. intros [_ H]%andb_prop. apply IH in H. discriminate H.
Qed.

Lemma strip_empty s : strip s = "" <-> blank s = true.
Proof.
  unfold strip. rewrite rstrip_empty. split.
  - intros H. apply lstrip_empty. pose proof (lstrip_head s) as Hh.
    destruct (lstrip s) as [|c r]; [reflexivity|].
    simpl in H. rewrite Hh in H. discriminate H.
  - intros H. apply lstrip_empty in H. now rewrite H.
Qed.

(** X16: [validate_key] rejects a key exactly when it is empty or made of
    white space only, with "Key cannot be empty"; a key with any other
    character is returned unchanged, surrounding white space included. *)
Theorem validate_key_blank (s : string) :
  Models.validate_key (Models.PStr s) =
  if blank s then Raise (Exn ValueError "Key cannot be empty") else OK (Models.PStr s).
Proof.
  unfold Models.validate_key.
  destruct (String.eqb_spec (strip s) "") as [H | H].
  - apply strip_empty in H. now rewrite H.
  - destruct (blank s) eqn:Hb; [|reflexivity]. apply strip_empty in Hb. contradiction.
Qed.
